(** * dulwich/credentials.py: the git credential-helper client

    A shallow embedding of [CredentialHelper] (construction by [__init__]
    and [from_config], command resolution in [_prepare_command], the [get]
    request/response protocol, and the unsupported [store]/[erase] verbs)
    together with the Python builtins it relies on, followed by the
    properties of the written specification and further properties of the
    module.

    Conventions.
    - A Python [str] is the list of its Unicode code points ([list N]); the
      literal ["abc"] of the source is written [u "abc"].
    - A Python [bytes] is a [list byte]; the literal [b"abc"] is [b "abc"].
    - A [dict] with [bytes] keys is a [gmap (list byte) (list byte)].
    - Exceptions are values of [exn]; a computation that may raise returns a
      [result].  Calls into the operating system ([shutil.which],
      [subprocess.check_output], [subprocess.run]) are answered by an
      explicit [OS] record and recorded, in order, in a trace of [event]s. *)

From Stdlib Require Import ZArith NArith List Strings.Ascii Strings.String Strings.Byte.
From stdpp Require Import base option list countable gmap.

Local Open Scope N_scope.

(** ** Python values *)

Abbreviation str := (list N).
Abbreviation bytes := (list byte).

Definition u (s : string) : str := N_of_ascii <$> list_ascii_of_string s.
Definition b (s : string) : bytes := list_byte_of_string s.

#[global] Instance byte_eq_decision : EqDecision byte := Byte.byte_eq_dec.

#[global] Instance byte_countable : Countable byte.
Proof.
  refine (inj_countable' Byte.to_N (λ n, default x00 (Byte.of_N n)) _).
  intros x. by rewrite Byte.of_to_N.
Defined.

(** The objects that end up as the argument of an exception. *)
Inductive pyobj :=
| PyNone
| PyBytes (v : bytes)
| PyStr (v : str).

(** ** Exceptions *)

Inductive exn :=
| CredentialNotFoundError (arg : pyobj)      (* class CredentialNotFoundError(Exception) *)
| NotImplementedError
| IndexError
| ValueError (msg : str)
| UnicodeEncodeError (start : nat)           (* position of the offending character *)
| FileNotFoundError
| CalledProcessError (returncode : Z) (stderr : pyobj)
| OtherError (name : string).                (* any other exception of the environment *)

Inductive result (A : Type) :=
| Ok (v : A)
| Raise (e : exn).
Arguments Ok {A} v.
Arguments Raise {A} e.

(** ** What the operating system is asked *)

(** [Union[str, List[str]]]: a shell string or an argument vector. *)
Inductive command :=
| ShellCmd (s : str)
| ArgvCmd (argv : list str).

Inductive event :=
| EvWhich (cmd : str) (path : option str)            (* shutil.which(cmd, path=path) *)
| EvCheckOutput (args : list str)                    (* subprocess.check_output(args, ...) *)
| EvRun (cmd : command) (input : bytes) (shell : bool). (* subprocess.run(cmd, input=..., shell=...) *)

(** How a launched process ends: it exits with a status and its two captured
    streams, or it could not be started and the launch raises. *)
Inductive run_outcome :=
| Exited (returncode : Z) (stdout stderr : bytes)
| NotStarted (e : exn).

Record OS := {
  sys_platform : str;
  os_linesep : str;
  os_path_isabs : str → bool;
  os_path_join : str → str → str;
  which_answer : str → option str → option str;
  check_output_answer : list str → result str;
  run_answer : command → bytes → bool → run_outcome;
}.

(** ** Computations with exceptions and a trace of system calls *)

Definition M (A : Type) : Type := result A * list event.

Definition ret {A} (x : A) : M A := (Ok x, []).
Definition raise {A} (e : exn) : M A := (Raise e, []).
Definition lift {A} (r : result A) : M A := (r, []).

Definition bind {A B} (m : M A) (f : A → M B) : M B :=
  match m with
  | (Ok x, t) => let '(r, t') := f x in (r, t ++ t')
  | (Raise e, t) => (Raise e, t)
  end.

(** [try: m except ...: h e]; a handler re-raises what it does not catch. *)
Definition try_except {A} (m : M A) (h : exn → M A) : M A :=
  match m with
  | (Ok x, t) => (Ok x, t)
  | (Raise e, t) => let '(r, t') := h e in (r, t ++ t')
  end.

Notation "'let*' x ':=' m 'in' k" := (bind m (λ x, k))
  (at level 10, x name, m at level 100, k at level 200, only parsing).

Definition outcome {A} (m : M A) : result A := m.1.
Definition trace {A} (m : M A) : list event := m.2.

(** ** Python builtins used by the module *)

(** [seq[0]]: the first element, [IndexError] on an empty sequence. *)
Definition getitem0 {A} (l : list A) : result A :=
  match l with
  | [] => Raise IndexError
  | x :: _ => Ok x
  end.

(** [seq[0] = x] on a list: [IndexError] when the list is empty. *)
Definition setitem0 {A} (l : list A) (x : A) : result (list A) :=
  match l with
  | [] => Raise IndexError
  | _ :: tl => Ok (x :: tl)
  end.

(** The characters [str.split()] and [str.strip()] treat as whitespace. *)
Definition str_isspace (c : N) : bool :=
  ((9 <=? c) && (c <=? 13)) || ((28 <=? c) && (c <=? 32))
  || (c =? 133) || (c =? 160) || (c =? 5760)
  || ((8192 <=? c) && (c <=? 8202))
  || (c =? 8232) || (c =? 8233) || (c =? 8239) || (c =? 8287) || (c =? 12288).

(** The bytes [bytes.strip()] removes: space, tab, newline, return,
    vertical tab, form feed. *)
Definition bytes_isspace (c : byte) : bool :=
  let n := Byte.to_N c in ((9 <=? n) && (n <=? 13)) || (n =? 32).

Fixpoint lstrip {A} (sp : A → bool) (s : list A) : list A :=
  match s with
  | [] => []
  | c :: rest => if sp c then lstrip sp rest else s
  end.

Definition rstrip {A} (sp : A → bool) (s : list A) : list A :=
  rev (lstrip sp (rev s)).

Definition str_strip (s : str) : str := rstrip str_isspace (lstrip str_isspace s).
Definition bytes_strip (s : bytes) : bytes := rstrip bytes_isspace (lstrip bytes_isspace s).

(** The longest whitespace-free prefix of [s], and what follows it. *)
Fixpoint span_word (s : str) : str * str :=
  match s with
  | [] => ([], [])
  | c :: rest =>
      if str_isspace c then ([], s)
      else let '(w, r) := span_word rest in (c :: w, r)
  end.

(** [s.split(maxsplit=1)]: at most one split, on a run of whitespace. *)
Definition str_split_maxsplit1 (s : str) : list str :=
  match lstrip str_isspace s with
  | [] => []
  | s1 =>
      let '(w, rest) := span_word s1 in
      match lstrip str_isspace rest with
      | [] => [w]
      | r => [w; r]
      end
  end.

(** [s.encode("ascii")]: one byte per code point below 128, and
    [UnicodeEncodeError] at the first code point that is not. *)
Fixpoint encode_ascii_from (i : nat) (s : str) : result bytes :=
  match s with
  | [] => Ok []
  | c :: rest =>
      if 128 <=? c then Raise (UnicodeEncodeError i)
      else match encode_ascii_from (S i) rest with
           | Ok bs => Ok (default x00 (Byte.of_N c) :: bs)
           | Raise e => Raise e
           end
  end.

Definition encode_ascii (s : str) : result bytes := encode_ascii_from 0 s.

Definition LF : byte := x0a.
Definition CR : byte := x0d.

(** [data.splitlines()] on bytes: lines end at LF, CR or CR LF, the line
    breaks are dropped, and no empty line is added after a final break.
    [cur] holds the bytes of the line being read. *)
Fixpoint splitlines_from (cur : bytes) (s : bytes) : list bytes :=
  match s with
  | [] => match cur with [] => [] | _ => [cur] end
  | c :: rest =>
      if Byte.eqb c LF then cur :: splitlines_from [] rest
      else if Byte.eqb c CR then
        match rest with
        | c' :: rest' =>
            if Byte.eqb c' LF then cur :: splitlines_from [] rest'
            else cur :: splitlines_from [] rest
        | [] => cur :: splitlines_from [] rest
        end
      else splitlines_from (cur ++ [c]) rest
  end.

Definition bytes_splitlines (s : bytes) : list bytes := splitlines_from [] s.

(** [data.split(sep)] for a separator of one byte: cut at every
    occurrence; the result always has at least one field. *)
Fixpoint bytes_split (sep : byte) (s : bytes) : list bytes :=
  match s with
  | [] => [[]]
  | c :: rest =>
      if Byte.eqb c sep then [] :: bytes_split sep rest
      else match bytes_split sep rest with
           | w :: ws => (c :: w) :: ws
           | [] => [[c]]
           end
  end.

(** ** [shlex.split] (POSIX mode, [whitespace_split], no comment characters)

    The lexer of the standard library, one character at a time.  [quoted]
    records that the current token had a quoted part, so that the empty
    token [''] is kept. *)

Inductive lex_state :=
| LexSpace                          (* state ' ': between tokens *)
| LexWord                           (* state 'a': inside a token *)
| LexQuote (q : N)                  (* inside a quotation opened by [q] *)
| LexEscape (inside : option N).    (* after a backslash, met inside quotation [inside] *)

Definition shlex_whitespace (c : N) : bool :=
  (c =? 32) || (c =? 9) || (c =? 13) || (c =? 10).
Definition shlex_quote (c : N) : bool := (c =? 39) || (c =? 34).
Definition shlex_escape (c : N) : bool := (c =? 92).
Definition shlex_escapedquote (c : N) : bool := (c =? 34).

(** A token is produced when it is not empty or had a quoted part. *)
Definition emit (quoted : bool) (token : str) (later : result (list str))
  : result (list str) :=
  match token, quoted with
  | [], false => later
  | _, _ => match later with
            | Ok ts => Ok (token :: ts)
            | Raise e => Raise e
            end
  end.

Fixpoint shlex_tokens (st : lex_state) (quoted : bool) (token : str) (s : str)
  : result (list str) :=
  match s with
  | [] =>
      match st with
      | LexSpace | LexWord => emit quoted token (Ok [])
      | LexQuote _ => Raise (ValueError (u "No closing quotation"))
      | LexEscape _ => Raise (ValueError (u "No escaped character"))
      end
  | c :: rest =>
      match st with
      | LexSpace =>
          if shlex_whitespace c then
            emit quoted token (shlex_tokens LexSpace false [] rest)
          else if shlex_escape c then shlex_tokens (LexEscape None) quoted token rest
          else if shlex_quote c then shlex_tokens (LexQuote c) quoted token rest
          else shlex_tokens LexWord quoted [c] rest
      | LexWord =>
          if shlex_whitespace c then
            emit quoted token (shlex_tokens LexSpace false [] rest)
          else if shlex_quote c then shlex_tokens (LexQuote c) quoted token rest
          else if shlex_escape c then shlex_tokens (LexEscape None) quoted token rest
          else shlex_tokens LexWord quoted (token ++ [c]) rest
      | LexQuote q =>
          if c =? q then shlex_tokens LexWord true token rest
          else if shlex_escape c && shlex_escapedquote q then
            shlex_tokens (LexEscape (Some q)) true token rest
          else shlex_tokens (LexQuote q) true (token ++ [c]) rest
      | LexEscape inside =>
          match inside with
          | Some q =>
              let token :=
                if negb (c =? 92) && negb (c =? q) then token ++ [92] else token in
              shlex_tokens (LexQuote q) quoted (token ++ [c]) rest
          | None => shlex_tokens LexWord quoted (token ++ [c]) rest
          end
      end
  end.

Definition shlex_split (s : str) : result (list str) :=
  shlex_tokens LexSpace false [] s.

(** ** [class CredentialHelper] *)

(** The attributes set by [__init__]: the command string, and whether
    [_run_kwargs] holds [shell=True]. *)
Record CredentialHelper := {
  _command : str;
  _run_kwargs_shell : bool;
}.

Definition bang : N := 33.    (* "!" *)

Definition __init__ (command : str) : result CredentialHelper :=
  match getitem0 command with
  | Raise e => Raise e
  | Ok c0 => Ok {| _command := command; _run_kwargs_shell := (c0 =? bang) |}
  end.

(** [bool(x)] for the value returned by [shutil.which]: [None] and the
    empty string are false. *)
Definition truthy (found : option str) : bool :=
  match found with
  | Some (_ :: _) => true
  | _ => false
  end.

(** *** Reading the answer of the helper *)

(** [key, value = fields]: exactly two fields, otherwise [ValueError]
    (rendered as [None], the only way the unpacking can fail). *)
Definition unpack2 {A} (fields : list A) : option (A * A) :=
  match fields with
  | [key; value] => Some (key, value)
  | _ => None
  end.

Definition equals_sign : byte := x3d.    (* b"=" *)

(** The body of the [for line in ...] loop of [get]. *)
Definition read_line (credentials : gmap bytes bytes) (line : bytes)
  : gmap bytes bytes :=
  match unpack2 (bytes_split equals_sign line) with
  | Some (key, value) => <[key := value]> credentials
  | None => credentials                  (* except ValueError: continue *)
  end.

Definition read_lines (lines : list bytes) : gmap bytes bytes :=
  foldl read_line ∅ lines.

(** [credentials] after the loop over [res.stdout.strip().splitlines()]. *)
Definition read_credentials (stdout : bytes) : gmap bytes bytes :=
  read_lines (bytes_splitlines (bytes_strip stdout)).

(** [all(...)] over a tuple of truth values. *)
Definition py_all (values : list bool) : bool := forallb id values.

(** [bool(d)] and [key in d] for a dict. *)
Definition dict_truthy (d : gmap bytes bytes) : bool := bool_decide (d ≠ ∅).
Definition dict_contains (key : bytes) (d : gmap bytes bytes) : bool :=
  bool_decide (is_Some (d !! key)).

(** [cmd += " get"] for a shell string, [cmd.append("get")] for a list. *)
Definition add_verb (cmd : command) : command :=
  match cmd with
  | ShellCmd s => ShellCmd (s ++ u " get")
  | ArgvCmd argv => ArgvCmd (argv ++ [u "get"])
  end.

Section WithOS.

Context (os : OS).

Definition shutil_which (cmd : str) (path : option str) : M (option str) :=
  (Ok (which_answer os cmd path), [EvWhich cmd path]).

Definition subprocess_check_output (args : list str) : M str :=
  (check_output_answer os args, [EvCheckOutput args]).

(** [subprocess.run(cmd, check=True, stdout=PIPE, stderr=PIPE, input=...,
    shell=...)]: a non-zero exit status raises [CalledProcessError]
    carrying the captured streams. *)
Definition subprocess_run (cmd : command) (input : bytes) (shell : bool)
  : M bytes :=
  (match run_answer os cmd input shell with
   | Exited returncode stdout stderr =>
       if (returncode =? 0)%Z then Ok stdout
       else Raise (CalledProcessError returncode (PyBytes stderr))
   | NotStarted e => Raise e
   end, [EvRun cmd input shell]).

(** The argument vector of [_prepare_command]: [shlex.split], and on
    Windows the first token taken again from the raw string. *)
Definition tokenize (command : str) : result (list str) :=
  match shlex_split command with
  | Raise e => Raise e
  | Ok argv =>
      if decide (sys_platform os = u "win32") then
        (* Windows paths are mangled by shlex *)
        match getitem0 (str_split_maxsplit1 command) with
        | Raise e => Raise e
        | Ok first => setitem0 argv first
        end
      else Ok argv
  end.

Definition _prepare_command (self : CredentialHelper) : M command :=
  let* c0 := lift (getitem0 (_command self)) in
  if c0 =? bang then ret (ShellCmd (drop 1 (_command self)))
  else
    let* argv := lift (tokenize (_command self)) in
    let* argv0 := lift (getitem0 argv) in
    if os_path_isabs os argv0 then ret (ArgvCmd argv)
    else
      let executable := u "git-credential-" ++ argv0 in
      let* on_path := shutil_which executable None in
      let* executable :=
        if negb (truthy on_path) then
          let* git := shutil_which (u "git") None in
          if truthy git then
            (* If the helper cannot be found in PATH, it might be
               a C git helper in GIT_EXEC_PATH *)
            let* out := subprocess_check_output [u "git"; u "--exec-path"] in
            let git_exec_path := str_strip out in
            let* in_exec_path := shutil_which executable (Some git_exec_path) in
            if truthy in_exec_path
            then ret (os_path_join os git_exec_path executable)
            else ret executable
          else ret executable
        else ret executable in
      ret (ArgvCmd (executable :: drop 1 argv)).

Definition get (self : CredentialHelper) (url : str) : M (gmap bytes bytes) :=
  let* cmd := _prepare_command self in
  let cmd := add_verb cmd in
  let* helper_input := lift (encode_ascii (u "url=" ++ url ++ os_linesep os)) in
  let* stdout :=
    try_except
      (subprocess_run cmd helper_input (_run_kwargs_shell self))
      (λ exc,
        match exc with
        | CalledProcessError _ stderr => raise (CredentialNotFoundError stderr)
        | FileNotFoundError =>
            raise (CredentialNotFoundError (PyStr (u "Helper not found")))
        | _ => raise exc
        end) in
  let credentials := read_credentials stdout in
  if negb (py_all [dict_truthy credentials;
                   dict_contains (b "username") credentials;
                   dict_contains (b "password") credentials])
  then raise (CredentialNotFoundError
                (PyStr (u "Could not get credentials from helper")))
  else ret credentials.

(** [store(self, *args, **kwargs)] and [erase(self, *args, **kwargs)]. *)
Definition store (self : CredentialHelper)
    (args : list pyobj) (kwargs : list (str * pyobj)) : M unit :=
  raise NotImplementedError.

Definition erase (self : CredentialHelper)
    (args : list pyobj) (kwargs : list (str * pyobj)) : M unit :=
  raise NotImplementedError.

End WithOS.

(** *** [from_config] *)

(** What [from_config] uses of a [ConfigDict]: its [encoding] attribute and
    its [get(section, name)] method, which raises when the name is not set
    (the section is a tuple of byte strings). *)
Record ConfigDict := {
  config_encoding : option str;
  config_get : list bytes → bytes → result bytes;
}.

(** [sys.getdefaultencoding()]. *)
Definition getdefaultencoding : str := u "utf-8".

Section FromConfig.

(** [text.encode(encoding)] and [data.decode(encoding)] for a named codec. *)
Context (codec_encode : str → str → result bytes).
Context (codec_decode : str → bytes → result str).

Definition from_config (config : ConfigDict) (url : option str)
  : result CredentialHelper :=
  let encoding :=
    match config_encoding config with
    | Some (c :: name) => c :: name
    | _ => getdefaultencoding
    end in
  let section :=
    match url with
    | Some (c :: rest) =>
        match codec_encode encoding (c :: rest) with
        | Ok encoded => Ok [b "credential"; encoded]
        | Raise e => Raise e
        end
    | _ => Ok [b "credential"]
    end in
  match section with
  | Raise e => Raise e
  | Ok section =>
      match config_get config section (b "helper") with
      | Raise e => Raise e
      | Ok command =>
          match command with
          | [] => Raise (OtherError "AssertionError")   (* assert command *)
          | _ =>
              match codec_decode encoding command with
              | Raise e => Raise e
              | Ok text => __init__ text
              end
          end
      end
  end.

End FromConfig.

(** The same system, reporting [win32] as its platform. *)
Definition on_windows (os : OS) : OS :=
  {| sys_platform := u "win32";
     os_linesep := [13; 10];
     os_path_isabs := os_path_isabs os;
     os_path_join := os_path_join os;
     which_answer := which_answer os;
     check_output_answer := check_output_answer os;
     run_answer := run_answer os |}.

(** A configuration with a generic helper and one for [https://git.sr.ht],
    and the ASCII codec, for running [from_config]. *)
Definition sample_config : ConfigDict :=
  {| config_encoding := None;
     config_get := λ section name,
       if decide (name = b "helper") then
         if decide (section = [b "credential"; b "https://git.sr.ht"])
         then Ok (b "urlspecific")
         else if decide (section = [b "credential"]) then Ok (b "generichelper")
         else Raise (OtherError "KeyError")
       else Raise (OtherError "KeyError") |}.

Definition ascii_encode (encoding : str) (text : str) : result bytes :=
  encode_ascii text.

Definition ascii_decode (encoding : str) (data : bytes) : result str :=
  Ok (Byte.to_N <$> data).

(** ** Vocabulary of the properties *)

Definition is_credential_not_found {A} (r : result A) : bool :=
  match r with
  | Raise (CredentialNotFoundError _) => true
  | _ => false
  end.

Definition is_returned {A} (r : result A) : bool :=
  match r with
  | Ok _ => true
  | Raise _ => false
  end.

Definition is_run (ev : event) : bool :=
  match ev with
  | EvRun _ _ _ => true
  | _ => false
  end.

Definition valid_credentials (credentials : gmap bytes bytes) : Prop :=
  credentials ≠ ∅
  ∧ is_Some (credentials !! b "username")
  ∧ is_Some (credentials !! b "password").

#[global] Instance valid_credentials_dec m : Decision (valid_credentials m).
Proof. unfold valid_credentials. apply _. Defined.

(** What [get] makes of the end of the helper process. *)
Definition conclude (end_of_run : run_outcome) : result (gmap bytes bytes) :=
  match end_of_run with
  | Exited returncode stdout stderr =>
      if (returncode =? 0)%Z then
        if decide (valid_credentials (read_credentials stdout))
        then Ok (read_credentials stdout)
        else Raise (CredentialNotFoundError
                      (PyStr (u "Could not get credentials from helper")))
      else Raise (CredentialNotFoundError (PyBytes stderr))
  | NotStarted (CalledProcessError _ stderr) =>
      Raise (CredentialNotFoundError stderr)
  | NotStarted FileNotFoundError =>
      Raise (CredentialNotFoundError (PyStr (u "Helper not found")))
  | NotStarted e => Raise e
  end.

Definition request_line (os : OS) (url : str) : str :=
  u "url=" ++ url ++ os_linesep os.

(** The specification's words for a line: "split on the first [=]", the
    text before the first separator and everything after it. *)
Fixpoint split_first (sep : byte) (line : bytes) : option (bytes * bytes) :=
  match line with
  | [] => None
  | c :: rest =>
      if Byte.eqb c sep then Some ([], rest)
      else match split_first sep rest with
           | Some (key, value) => Some (c :: key, value)
           | None => None
           end
  end.

(** A line the loop accepts, and the pair it contributes. *)
Definition parsed (line : bytes) : option (bytes * bytes) :=
  unpack2 (bytes_split equals_sign line).

(** A byte string without a line break. *)
Definition no_line_break (s : bytes) : Prop := (LF ∉ s) ∧ (CR ∉ s).

(** What a well-behaved helper prints for a list of pairs: one line
    [key=value] per pair, each ended by [terminator]; and the mapping that
    storing the pairs in order builds. *)
Definition print_pairs (terminator : bytes) (pairs : list (bytes * bytes)) : bytes :=
  concat (map (λ kv, kv.1 ++ equals_sign :: kv.2 ++ terminator) pairs).

Definition store_pairs (pairs : list (bytes * bytes)) : gmap bytes bytes :=
  foldl (λ credentials kv, <[kv.1 := kv.2]> credentials) ∅ pairs.

(** A key or a value that can be printed on a line. *)
Definition printable (s : bytes) : Prop := (equals_sign ∉ s) ∧ no_line_break s.

(** The line printed for a pair, and lines joined by a terminator. *)
Definition line_of (kv : bytes * bytes) : bytes := kv.1 ++ equals_sign :: kv.2.

Fixpoint join_lines (terminator : bytes) (lines : list bytes) : bytes :=
  match lines with
  | [] => []
  | [line] => line
  | line :: lines => line ++ terminator ++ join_lines terminator lines
  end.

(** A system call that command resolution may make. *)
Definition resolution_call (ev : event) : Prop :=
  match ev with
  | EvWhich _ _ => True
  | EvCheckOutput args => args = [u "git"; u "--exec-path"]
  | EvRun _ _ _ => False
  end.

(** ** A POSIX system, for running the model on concrete inputs *)

Module Posix.

Definition slash : N := 47.

(** [posixpath.isabs]: the path starts with a slash. *)
Definition isabs (s : str) : bool :=
  match s with
  | c :: _ => c =? slash
  | [] => false
  end.

(** [posixpath.join] of two components. *)
Definition join (a p : str) : str :=
  if isabs p then p
  else match last a with
       | None => p
       | Some c => if c =? slash then a ++ p else a ++ [slash] ++ p
       end.

Definition make
    (which : str → option str → option str)
    (check_output : list str → result str)
    (run : command → bytes → bool → run_outcome) : OS :=
  {| sys_platform := u "linux";
     os_linesep := [10];
     os_path_isabs := isabs;
     os_path_join := join;
     which_answer := which;
     check_output_answer := check_output;
     run_answer := run |}.

(** Nothing is installed: no helper and no git on the search path, and
    launching anything fails with [FileNotFoundError]. *)
Definition bare : OS :=
  make (λ _ _, None)
       (λ _, Raise FileNotFoundError)
       (λ _ _ _, NotStarted FileNotFoundError).

(** Every probed name is found on the search path, and every launched
    process exits with [returncode], [stdout] and [stderr]. *)
Definition answering (returncode : Z) (stdout stderr : bytes) : OS :=
  make (λ cmd _, Some (u "/usr/bin/" ++ cmd))
       (λ _, Raise FileNotFoundError)
       (λ _ _ _, Exited returncode stdout stderr).

(** Git is installed with its helpers in [/path/to/git-core], which is
    not on the search path. *)
Definition with_git_core (run : command → bytes → bool → run_outcome) : OS :=
  make (λ cmd path,
          match path with
          | Some dir => Some (join dir cmd)
          | None => if decide (cmd = u "git") then Some (u "/usr/bin/git") else None
          end)
       (λ _, Ok (u "/path/to/git-core" ++ [10]))
       run.

(** The helper file exists but may not be executed: nothing is on the
    search path, and every launch fails with [PermissionError]. *)
Definition unstartable : OS :=
  make (λ _ _, None)
       (λ _, Raise FileNotFoundError)
       (λ _ _ _, NotStarted (OtherError "PermissionError")).

End Posix.

Definition helper (command : str) : CredentialHelper :=
  match __init__ command with
  | Ok self => self
  | Raise _ => {| _command := command; _run_kwargs_shell := false |}
  end.

(** * Properties *)

(** ** Command resolution and the launch *)

(** Command resolution never launches the helper. *)
Lemma prepare_command_no_run os self :
  forallb (λ ev, negb (is_run ev)) (trace (_prepare_command os self)) = true.
Proof.
  unfold _prepare_command, lift, ret, shutil_which, subprocess_check_output, bind, trace.
  repeat case_match; simplify_eq/=; done.
Qed.

Lemma prepare_command_trace_run os self cmd input shell :
  EvRun cmd input shell ∉ trace (_prepare_command os self).
Proof.
  intros Hin. pose proof (prepare_command_no_run os self) as Hall.
  rewrite forallb_forall in Hall.
  apply list_elem_of_In, Hall in Hin. done.
Qed.

(** ** [get], seen from the outcome of the launch *)

Lemma acceptance_check m :
  py_all [dict_truthy m; dict_contains (b "username") m; dict_contains (b "password") m]
  = bool_decide (valid_credentials m).
Proof.
  unfold py_all, dict_truthy, dict_contains, valid_credentials. simpl.
  rewrite andb_true_r.
  repeat (case_bool_decide; simpl); try done; tauto.
Qed.

Lemma get_unfold os self url :
  get os self url =
    match _prepare_command os self with
    | (Raise e, t) => (Raise e, t)
    | (Ok cmd, t) =>
        match encode_ascii (request_line os url) with
        | Raise e => (Raise e, t)
        | Ok input =>
            (conclude (run_answer os (add_verb cmd) input (_run_kwargs_shell self)),
             t ++ [EvRun (add_verb cmd) input (_run_kwargs_shell self)])
        end
    end.
Proof.
  unfold get. fold (request_line os url).
  destruct (_prepare_command os self) as [[cmd|e] t]; [|done].
  cbn [bind]. destruct (encode_ascii (request_line os url)) as [input|e].
  2:{ simpl. by rewrite app_nil_r. }
  unfold lift. cbn [bind]. unfold subprocess_run, try_except, conclude.
  destruct (run_answer os (add_verb cmd) input (_run_kwargs_shell self))
    as [rc out err|e].
  - destruct (rc =? 0)%Z; [|done].
    cbn [try_except bind]. rewrite acceptance_check, decide_bool_decide.
    by destruct (bool_decide (valid_credentials (read_credentials out))).
  - by destruct e.
Qed.

(** Whenever [get] launches the helper, the launch is the one of the source:
    the resolved command with the verb appended, the encoded request line on
    standard input, and the outcome of [get] is decided by how that process
    ends. *)
Lemma get_launch os self url cmd input shell :
  EvRun cmd input shell ∈ trace (get os self url) →
  ∃ resolved,
    outcome (_prepare_command os self) = Ok resolved
    ∧ cmd = add_verb resolved
    ∧ encode_ascii (request_line os url) = Ok input
    ∧ shell = _run_kwargs_shell self
    ∧ trace (get os self url)
      = trace (_prepare_command os self) ++ [EvRun cmd input shell]
    ∧ outcome (get os self url) = conclude (run_answer os cmd input shell).
Proof.
  rewrite get_unfold.
  pose proof (prepare_command_trace_run os self cmd input shell) as Hno.
  destruct (_prepare_command os self) as [[resolved|e] t]; simpl in *; [|done].
  destruct (encode_ascii (request_line os url)) as [bs|e]; simpl; [|done].
  rewrite elem_of_app, list_elem_of_singleton.
  intros [?|[= -> -> ->]]; [done|]. by exists resolved.
Qed.

Lemma conclude_valid end_of_run m :
  conclude end_of_run = Ok m → valid_credentials m.
Proof.
  destruct end_of_run as [rc out err|e]; simpl.
  - destruct (rc =? 0)%Z; [|done]. case_decide; [|done]. by intros [= <-].
  - by destruct e.
Qed.

(** ** ASCII encoding *)

Lemma encode_ascii_from_ok i s bs :
  encode_ascii_from i s = Ok bs →
  Forall (λ c, c < 128) s ∧ Byte.to_N <$> bs = s.
Proof.
  revert i bs. induction s as [|c s IH]; intros i bs; simpl.
  - intros [= <-]. by split.
  - destruct (128 <=? c) eqn:Hc; [done|]. apply N.leb_gt in Hc.
    destruct (encode_ascii_from (S i) s) as [bs'|] eqn:Hs; [|done].
    intros [= <-]. destruct (IH _ _ Hs) as [Hall Hbs]. split; [by constructor|].
    rewrite fmap_cons, Hbs. f_equal.
    destruct (Byte.of_N c) as [x|] eqn:Hx; simpl.
    + by apply Byte.to_of_N.
    + apply Byte.of_N_None_iff in Hx. lia.
Qed.

Lemma encode_ascii_from_non_ascii i s :
  Exists (λ c, 128 ≤ c) s →
  ∃ pos, encode_ascii_from i s = Raise (UnicodeEncodeError pos).
Proof.
  intros Hex. revert i. induction Hex as [c s Hc|c s Hex IH]; intros i; simpl.
  - apply N.leb_le in Hc. rewrite Hc. by eexists.
  - destruct (128 <=? c); [by eexists|].
    destruct (IH (S i)) as [pos ->]. by eexists.
Qed.

Lemma encode_ascii_from_ascii i s :
  Forall (λ c, c < 128) s →
  ∃ bs, encode_ascii_from i s = Ok bs.
Proof.
  intros Hall. revert i. induction Hall as [|c s Hc _ IH]; intros i; simpl.
  - by eexists.
  - apply N.leb_gt in Hc. rewrite Hc. destruct (IH (S i)) as [bs ->]. by eexists.
Qed.

Lemma url_key_ascii : Forall (λ c, c < 128) (u "url=").
Proof. repeat constructor. Qed.

Lemma encode_ascii_from_raises i s e :
  encode_ascii_from i s = Raise e → ∃ pos, e = UnicodeEncodeError pos.
Proof.
  revert i. induction s as [|c s IH]; intros i; [done|]. simpl.
  destruct (128 <=? c); [intros [= <-]; by eexists|].
  destruct (encode_ascii_from (S i) s) eqn:Hs; [done|].
  intros [= <-]. by apply (IH (S i)).
Qed.

Lemma emit_raises quoted token later e :
  emit quoted token later = Raise e → later = Raise e.
Proof. unfold emit. by repeat case_match. Qed.

Lemma shlex_tokens_raises st quoted token s e :
  shlex_tokens st quoted token s = Raise e → ∃ msg, e = ValueError msg.
Proof.
  revert st quoted token. induction s as [|c s IH]; intros st quoted token; simpl.
  - destruct st; try (intros [= <-]; by eexists); by intros ?%emit_raises.
  - repeat case_match; try (intros ?%emit_raises); eauto.
Qed.

Lemma tokenize_raises os command_spec e :
  tokenize os command_spec = Raise e →
  e = IndexError ∨ ∃ msg, e = ValueError msg.
Proof.
  unfold tokenize, shlex_split.
  destruct (shlex_tokens LexSpace false [] command_spec) as [argv|e'] eqn:Hlex.
  - unfold getitem0, setitem0. repeat case_match; intros; simplify_eq; by left.
  - intros [= <-]. right. by eapply shlex_tokens_raises.
Qed.

(** The exceptions of command resolution: an empty command or argument
    vector, a tokenizer error, or whatever [git --exec-path] raised. *)
Lemma prepare_command_raises os self e :
  outcome (_prepare_command os self) = Raise e →
  e = IndexError
  ∨ (∃ msg, e = ValueError msg)
  ∨ check_output_answer os [u "git"; u "--exec-path"] = Raise e.
Proof.
  unfold _prepare_command.
  destruct (_command self) as [|c0 rest]; [intros [= <-]; by left|].
  cbn [getitem0 lift bind]. destruct (c0 =? bang); [done|].
  destruct (tokenize os (c0 :: rest)) as [argv|e'] eqn:Htok.
  2:{ intros [= <-]. destruct (tokenize_raises _ _ _ Htok); by auto. }
  cbn [bind]. destruct argv as [|argv0 argv]; [intros [= <-]; by left|].
  cbn [getitem0 lift bind]. destruct (os_path_isabs os argv0); [done|].
  unfold shutil_which, subprocess_check_output, ret, bind, outcome.
  repeat case_match; intros; simplify_eq/=; by auto.
Qed.

(** ** Reading the helper's answer *)

Lemma byte_eqb_decide (x y : byte) : Byte.eqb x y = bool_decide (x = y).
Proof.
  case_bool_decide as H.
  - subst. by apply Byte.byte_dec_lb.
  - destruct (Byte.eqb x y) eqn:E; [|done]. by apply Byte.byte_dec_bl in E.
Qed.

Lemma bytes_split_absent sep s : sep ∉ s → bytes_split sep s = [s].
Proof.
  induction s as [|c s IH]; [done|]. rewrite not_elem_of_cons. intros [Hc Hs].
  simpl. rewrite byte_eqb_decide, bool_decide_eq_false_2 by done.
  by rewrite IH.
Qed.

Lemma bytes_split_first sep line key value :
  split_first sep line = Some (key, value) →
  bytes_split sep line = key :: bytes_split sep value.
Proof.
  revert key. induction line as [|c line IH]; intros key; [done|]. simpl.
  destruct (Byte.eqb c sep); [by intros [= <- <-]|].
  destruct (split_first sep line) as [[k v]|]; [|done].
  intros [= <- <-]. by rewrite (IH k).
Qed.

Lemma split_first_absent sep line : sep ∉ line → split_first sep line = None.
Proof.
  induction line as [|c line IH]; [done|]. rewrite not_elem_of_cons. intros [Hc Hs].
  simpl. rewrite byte_eqb_decide, bool_decide_eq_false_2 by done. by rewrite IH.
Qed.

Lemma split_first_present sep line :
  sep ∈ line → ∃ key value, split_first sep line = Some (key, value).
Proof.
  induction line as [|c line IH]; [by intros ?%elem_of_nil|].
  simpl. rewrite byte_eqb_decide. case_bool_decide as Hc; [by eauto|].
  rewrite elem_of_cons. intros [?|Hin]; [done|].
  destruct (IH Hin) as (k & v & ->). eauto.
Qed.

Lemma split_first_shape sep line key value :
  split_first sep line = Some (key, value) →
  line = key ++ sep :: value ∧ sep ∉ key.
Proof.
  revert key. induction line as [|c line IH]; intros key; [done|]. simpl.
  rewrite byte_eqb_decide. case_bool_decide as Hc.
  - intros [= <- <-]. subst. split; [done|]. by apply not_elem_of_nil.
  - destruct (split_first sep line) as [[k v]|]; [|done].
    intros [= <- <-]. destruct (IH k eq_refl) as [-> Hk].
    split; [done|]. rewrite not_elem_of_cons. by split.
Qed.

Lemma bytes_split_two_or_more sep s :
  sep ∈ s → ∃ w1 w2 ws, bytes_split sep s = w1 :: w2 :: ws.
Proof.
  intros Hin. destruct (split_first_present _ _ Hin) as (k & v & Hkv).
  rewrite (bytes_split_first _ _ _ _ Hkv).
  destruct v as [|c v]; [by eauto|]. simpl.
  destruct (Byte.eqb c sep); [by eauto|].
  destruct (bytes_split sep v); eauto.
Qed.

Lemma parsed_absent line : equals_sign ∉ line → parsed line = None.
Proof. intros H. unfold parsed. by rewrite bytes_split_absent. Qed.

Lemma parsed_once line key value :
  split_first equals_sign line = Some (key, value) →
  equals_sign ∉ value → parsed line = Some (key, value).
Proof.
  intros Hsplit Hv. unfold parsed.
  by rewrite (bytes_split_first _ _ _ _ Hsplit), bytes_split_absent.
Qed.

Lemma parsed_more line key value :
  split_first equals_sign line = Some (key, value) →
  equals_sign ∈ value → parsed line = None.
Proof.
  intros Hsplit Hv. unfold parsed.
  rewrite (bytes_split_first _ _ _ _ Hsplit).
  by destruct (bytes_split_two_or_more _ _ Hv) as (w1 & w2 & ws & ->).
Qed.

Lemma read_line_parsed credentials line :
  read_line credentials line =
    match parsed line with
    | Some (key, value) => <[key := value]> credentials
    | None => credentials
    end.
Proof. done. Qed.

Lemma read_line_accept credentials line key value :
  parsed line = Some (key, value) →
  read_line credentials line = <[key := value]> credentials.
Proof. intros H. by rewrite read_line_parsed, H. Qed.

Lemma read_line_skip credentials line :
  parsed line = None → read_line credentials line = credentials.
Proof. intros H. by rewrite read_line_parsed, H. Qed.

Lemma read_credentials_lines stdout lines :
  bytes_splitlines (bytes_strip stdout) = lines →
  read_credentials stdout = foldl read_line ∅ lines.
Proof. by intros <-. Qed.

Lemma read_lines_from credentials lines key value :
  credentials !! key = Some value →
  (∀ line value', line ∈ lines → parsed line ≠ Some (key, value')) →
  foldl read_line credentials lines !! key = Some value.
Proof.
  revert credentials. induction lines as [|line lines IH]; intros m Hm Hno; [done|].
  simpl. apply IH.
  - rewrite read_line_parsed. destruct (parsed line) as [[k v]|] eqn:Hp; [|done].
    rewrite lookup_insert_ne; [done|]. intros ->.
    by apply (Hno line v); [left|].
  - intros l v' Hl. apply Hno. by right.
Qed.

(** ** The model on the inputs of the test suite *)

Example shlex_split_quoted_argument :
  shlex_split (u "/path/to/exe --foo bar --quz " ++ [34] ++ u "arg with spaces" ++ [34])
  = Ok [u "/path/to/exe"; u "--foo"; u "bar"; u "--quz"; u "arg with spaces"].
Proof. vm_compute. reflexivity. Qed.

Example shlex_split_unclosed_quotation :
  shlex_split (u "foo 'bar") = Raise (ValueError (u "No closing quotation")).
Proof. vm_compute. reflexivity. Qed.

Example prepare_command_abspath_extra_args :
  _prepare_command Posix.bare
    (helper (u "/path/to/exe --foo bar --quz " ++ [34] ++ u "arg with spaces" ++ [34]))
  = (Ok (ArgvCmd [u "/path/to/exe"; u "--foo"; u "bar"; u "--quz"; u "arg with spaces"]),
     []).
Proof. vm_compute. reflexivity. Qed.

Example prepare_command_in_path :
  outcome (_prepare_command (Posix.answering 0 [] []) (helper (u "foo")))
  = Ok (ArgvCmd [u "git-credential-foo"]).
Proof. vm_compute. reflexivity. Qed.

Example prepare_command_nothing_installed :
  _prepare_command Posix.bare (helper (u "foo"))
  = (Ok (ArgvCmd [u "git-credential-foo"]),
     [EvWhich (u "git-credential-foo") None; EvWhich (u "git") None]).
Proof. vm_compute. reflexivity. Qed.

Example init_empty_command : __init__ [] = Raise IndexError.
Proof. reflexivity. Qed.

Example splitlines_mixed_breaks :
  bytes_splitlines (b "a" ++ [CR; LF] ++ b "b" ++ [LF; LF] ++ b "c" ++ [CR])
  = [b "a"; b "b"; []; b "c"].
Proof. vm_compute. reflexivity. Qed.

Example answer_lines_of_stdout :
  bytes_splitlines (bytes_strip (b "username=username" ++ [LF] ++ b "password=password" ++ [LF]))
  = [b "username=username"; b "password=password"].
Proof. vm_compute. reflexivity. Qed.

Example split_fields :
  bytes_split equals_sign (b "a=b=c") = [b "a"; b "b"; b "c"]
  ∧ bytes_split equals_sign (b "username") = [b "username"]
  ∧ bytes_split equals_sign (b "=") = [[]; []].
Proof. vm_compute. by repeat split. Qed.

Example get_malformed_output :
  outcome (get (Posix.answering 0 (b "username" ++ [LF] ++ b "password" ++ [LF]) [])
               (helper (u "dummy")) (u "dummy"))
  = Raise (CredentialNotFoundError (PyStr (u "Could not get credentials from helper"))).
Proof.
  rewrite get_unfold. vm_compute _prepare_command. cbv iota beta.
  replace (encode_ascii _) with (Ok (A:=bytes) (b "url=dummy" ++ [LF]))
    by (vm_compute; reflexivity).
  cbn [outcome fst Posix.answering Posix.make run_answer conclude Z.eqb].
  rewrite (read_credentials_lines _ [b "username"; b "password"])
    by (vm_compute; reflexivity).
  cbn [foldl]. rewrite !read_line_skip by (vm_compute; reflexivity).
  rewrite decide_False; [done|]. by intros [? _].
Qed.

Lemma tokenize_not_windows os command :
  sys_platform os ≠ u "win32" → tokenize os command = shlex_split command.
Proof.
  intros Hplatform. unfold tokenize.
  destruct (shlex_split command); [|done]. by rewrite decide_False.
Qed.

(** Membership of a concrete event in a concrete trace, by evaluation. *)
Ltac in_trace :=
  apply list_elem_of_In; vm_compute;
  repeat first [left; reflexivity | right].

(** A byte that does not occur in a concrete byte string, by evaluation. *)
Ltac absent_byte := apply (bool_decide_unpack _); vm_compute; reflexivity.

(** * The claims of the specification *)

(** ** Command resolution *)

(** C4. For every command specification that begins with [!], resolution
    returns exactly the remainder of the string as a shell command: nothing
    is tokenized or rewritten, and the system is not consulted. *)
Theorem prepare_command_shell_verbatim (os : OS) (self : CredentialHelper) (rest : str) :
  _command self = bang :: rest →
  _prepare_command os self = (Ok (ShellCmd rest), []).
Proof. intros Hcmd. unfold _prepare_command. by rewrite Hcmd. Qed.

Lemma prepare_command_shell_verbatim_witness :
  _prepare_command Posix.bare (helper (u "!f() { echo foo}; f"))
  = (Ok (ShellCmd (u "f() { echo foo}; f")), []).
Proof.
  apply (prepare_command_shell_verbatim Posix.bare
           (helper (u "!f() { echo foo}; f")) (u "f() { echo foo}; f")).
  reflexivity.
Defined.

(** C2. For a command that does not begin with [!] and whose first token
    [argv0] (the first shell-split token; on Windows the source takes it
    again from the raw string) is not an absolute path, resolution computes
    [executable = "git-credential-" + argv0].  When that executable is found
    on the search path, or no git is, the descriptor is [executable] followed
    by the remaining tokens.  When it is not found and git is, the directory
    git reports for [--exec-path] is probed; if the helper is found there the
    executable becomes its path inside that directory, and the descriptor is
    again the executable followed by the remaining tokens unchanged. *)
Theorem prepare_command_short_name
    (os : OS) (self : CredentialHelper) (c0 : N) (argv0 : str) (rest : list str) :
  getitem0 (_command self) = Ok c0 →
  c0 ≠ bang →
  tokenize os (_command self) = Ok (argv0 :: rest) →
  os_path_isabs os argv0 = false →
  let executable := u "git-credential-" ++ argv0 in
  let on_path := truthy (which_answer os executable None) in
  let git := truthy (which_answer os (u "git") None) in
  (on_path = true ∨ git = false →
   outcome (_prepare_command os self) = Ok (ArgvCmd (executable :: rest)))
  ∧ (on_path = false → git = true →
     ∀ out, check_output_answer os [u "git"; u "--exec-path"] = Ok out →
       let git_exec_path := str_strip out in
       EvWhich executable (Some git_exec_path) ∈ trace (_prepare_command os self)
       ∧ outcome (_prepare_command os self)
         = Ok (ArgvCmd
                 ((if truthy (which_answer os executable (Some git_exec_path))
                   then os_path_join os git_exec_path executable
                   else executable) :: rest))).
Proof.
  intros Hc0 Hbang Htok Habs executable on_path git.
  unfold _prepare_command. rewrite Hc0. cbn [lift bind].
  apply N.eqb_neq in Hbang. rewrite Hbang, Htok. cbn [bind getitem0 lift].
  rewrite Habs. fold executable. unfold shutil_which. cbn [bind].
  fold on_path. split.
  - intros [Hon|Hgit].
    + by rewrite Hon.
    + destruct on_path; [done|]. cbn [negb bind]. fold git. by rewrite Hgit.
  - intros Hon Hgit out Hout. rewrite Hon. cbn [negb bind].
    fold git. rewrite Hgit. unfold subprocess_check_output. rewrite Hout.
    cbn [bind].
    destruct (truthy (which_answer os executable (Some (str_strip out))));
      (split; [|done]); cbn [trace snd app ret]; set_solver.
Qed.

Lemma prepare_command_short_name_witness :
  outcome (_prepare_command
             (Posix.with_git_core (λ _ _ _, NotStarted FileNotFoundError))
             (helper (u "store --file /tmp/credentials")))
  = Ok (ArgvCmd [u "/path/to/git-core/git-credential-store";
                 u "--file"; u "/tmp/credentials"]).
Proof.
  destruct (prepare_command_short_name
              (Posix.with_git_core (λ _ _ _, NotStarted FileNotFoundError))
              (helper (u "store --file /tmp/credentials"))
              115 (u "store") [u "--file"; u "/tmp/credentials"]) as [_ Hprobe].
  - reflexivity.
  - discriminate.
  - reflexivity.
  - reflexivity.
  - destruct (Hprobe eq_refl eq_refl (u "/path/to/git-core" ++ [10]) eq_refl)
      as [_ Hout].
    exact Hout.
Defined.

(** ** The [get] request *)

(** C5. Whenever [get] launches the helper and the process exits with a
    non-zero status, [get] raises [CredentialNotFoundError] whose argument is
    the captured standard error of the process. *)
Theorem get_nonzero_exit_carries_stderr
    (os : OS) (self : CredentialHelper) (url : str)
    (cmd : command) (input : bytes) (shell : bool)
    (returncode : Z) (stdout stderr : bytes) :
  EvRun cmd input shell ∈ trace (get os self url) →
  run_answer os cmd input shell = Exited returncode stdout stderr →
  returncode ≠ 0%Z →
  outcome (get os self url) = Raise (CredentialNotFoundError (PyBytes stderr)).
Proof.
  intros Hrun Hexit Hrc.
  destruct (get_launch _ _ _ _ _ _ Hrun) as (_ & _ & _ & _ & _ & _ & ->).
  rewrite Hexit. simpl. apply Z.eqb_neq in Hrc. by rewrite Hrc.
Qed.

Lemma get_nonzero_exit_carries_stderr_witness :
  outcome (get (Posix.answering 1 [] (b "boom")) (helper (u "foo")) (u "dummy"))
  = Raise (CredentialNotFoundError (PyBytes (b "boom"))).
Proof.
  apply (get_nonzero_exit_carries_stderr
           (Posix.answering 1 [] (b "boom")) (helper (u "foo")) (u "dummy")
           (ArgvCmd [u "git-credential-foo"; u "get"])
           (b "url=dummy" ++ [LF]) false 1 [] (b "boom")).
  - in_trace.
  - reflexivity.
  - discriminate.
Defined.

(** C6, as stated, fails: a helper that exists but cannot be started (the
    launch raises [PermissionError]) does not end in
    [CredentialNotFoundError]; the error of the system reaches the caller. *)
Lemma get_unstartable_helper_is_not_credential_error :
  let r := outcome (get Posix.unstartable (helper (u "/path/to/helper")) (u "dummy")) in
  run_answer Posix.unstartable
    (ArgvCmd [u "/path/to/helper"; u "get"]) (b "url=dummy" ++ [LF]) false
  = NotStarted (OtherError "PermissionError")
  ∧ r = Raise (OtherError "PermissionError")
  ∧ is_credential_not_found r = false.
Proof. vm_compute. by repeat split. Qed.

(** C6, amended.  Whenever [get] launches the helper and the executable
    cannot be found (the launch raises [FileNotFoundError]), [get] raises
    [CredentialNotFoundError] with the message "Helper not found".  When the
    launch fails in any other way (other than [CalledProcessError]), that
    exception reaches the caller unchanged. *)
Theorem get_helper_not_found
    (os : OS) (self : CredentialHelper) (url : str)
    (cmd : command) (input : bytes) (shell : bool) :
  EvRun cmd input shell ∈ trace (get os self url) →
  (run_answer os cmd input shell = NotStarted FileNotFoundError →
   outcome (get os self url)
   = Raise (CredentialNotFoundError (PyStr (u "Helper not found"))))
  ∧ (∀ e, run_answer os cmd input shell = NotStarted e →
          e ≠ FileNotFoundError →
          (∀ returncode stderr, e ≠ CalledProcessError returncode stderr) →
          outcome (get os self url) = Raise e).
Proof.
  intros Hrun.
  destruct (get_launch _ _ _ _ _ _ Hrun) as (_ & _ & _ & _ & _ & _ & ->).
  split.
  - by intros ->.
  - intros e -> Hfound Hcalled. destruct e; try done.
    by destruct (Hcalled returncode stderr).
Qed.

Lemma get_helper_not_found_witness :
  outcome (get Posix.bare (helper (u "nonexisting")) (u "dummy"))
  = Raise (CredentialNotFoundError (PyStr (u "Helper not found"))).
Proof.
  destruct (get_helper_not_found
              Posix.bare (helper (u "nonexisting")) (u "dummy")
              (ArgvCmd [u "git-credential-nonexisting"; u "get"])
              (b "url=dummy" ++ [LF]) false) as [Hmissing _].
  - in_trace.
  - apply Hmissing. reflexivity.
Defined.

(** ** The unsupported verbs *)

(** C7. For every helper and all arguments, [store] and [erase] raise
    [NotImplementedError]: they never return, they do nothing else, and the
    exception is not a [CredentialNotFoundError]. *)
Theorem store_erase_not_implemented
    (self : CredentialHelper) (args : list pyobj) (kwargs : list (str * pyobj)) :
  store self args kwargs = (Raise NotImplementedError, [])
  ∧ erase self args kwargs = (Raise NotImplementedError, [])
  ∧ (∀ v, outcome (store self args kwargs) ≠ Ok v)
  ∧ (∀ v, outcome (erase self args kwargs) ≠ Ok v)
  ∧ (∀ arg, outcome (store self args kwargs) ≠ Raise (CredentialNotFoundError arg))
  ∧ (∀ arg, outcome (erase self args kwargs) ≠ Raise (CredentialNotFoundError arg)).
Proof. by repeat split. Qed.

(** ** What [get] returns *)

(** C1, as stated, fails: with a URL that is not ASCII the call neither
    returns a mapping nor raises [CredentialNotFoundError]; the
    [UnicodeEncodeError] of the request encoding reaches the caller. *)
Lemma get_non_ascii_url_is_not_credential_error :
  let r := outcome (get (Posix.answering 0 (b "username=u" ++ [LF] ++ b "password=p" ++ [LF]) [])
                        (helper (u "foo")) (u "https://ex" ++ [233] ++ u "mple.com")) in
  r = Raise (UnicodeEncodeError 14)
  ∧ is_returned r = false
  ∧ is_credential_not_found r = false.
Proof. vm_compute. by repeat split. Qed.

(** C1, amended.  A mapping is returned only if it is non-empty and holds
    both [username] and [password].  Whenever [get] launches the helper, and
    the process exits, the call returns the parsed mapping exactly when the
    status is zero and the mapping passes that check, and raises
    [CredentialNotFoundError] otherwise; when the executable is not found it
    raises [CredentialNotFoundError] as well.  Every other failure reaches
    the caller unchanged: an exception of command resolution ([IndexError],
    the tokenizer's [ValueError], or what [git --exec-path] raised), the
    [UnicodeEncodeError] of a URL that is not ASCII (which is not a
    [CredentialNotFoundError], and after which nothing is launched), and a
    failure of the launch other than [FileNotFoundError] and
    [CalledProcessError]. *)
Theorem get_returns_only_valid_credentials
    (os : OS) (self : CredentialHelper) (url : str) :
  (∀ credentials,
     outcome (get os self url) = Ok credentials → valid_credentials credentials)
  ∧ (∀ cmd input shell returncode stdout stderr,
       EvRun cmd input shell ∈ trace (get os self url) →
       run_answer os cmd input shell = Exited returncode stdout stderr →
       (returncode = 0%Z
        ∧ valid_credentials (read_credentials stdout)
        ∧ outcome (get os self url) = Ok (read_credentials stdout))
       ∨ ((returncode ≠ 0%Z ∨ ¬ valid_credentials (read_credentials stdout))
          ∧ is_credential_not_found (outcome (get os self url)) = true))
  ∧ (∀ cmd input shell,
       EvRun cmd input shell ∈ trace (get os self url) →
       run_answer os cmd input shell = NotStarted FileNotFoundError →
       is_credential_not_found (outcome (get os self url)) = true)
  ∧ (∀ e,
       outcome (_prepare_command os self) = Raise e →
       get os self url = (Raise e, trace (_prepare_command os self))
       ∧ (e = IndexError
          ∨ (∃ msg, e = ValueError msg)
          ∨ check_output_answer os [u "git"; u "--exec-path"] = Raise e))
  ∧ (∀ resolved e,
       outcome (_prepare_command os self) = Ok resolved →
       encode_ascii (u "url=" ++ url ++ os_linesep os) = Raise e →
       get os self url = (Raise e, trace (_prepare_command os self))
       ∧ (∃ pos, e = UnicodeEncodeError pos)
       ∧ is_credential_not_found (outcome (get os self url)) = false
       ∧ ∀ cmd input shell, EvRun cmd input shell ∉ trace (get os self url))
  ∧ (∀ cmd input shell e,
       EvRun cmd input shell ∈ trace (get os self url) →
       run_answer os cmd input shell = NotStarted e →
       e ≠ FileNotFoundError →
       (∀ returncode stderr, e ≠ CalledProcessError returncode stderr) →
       outcome (get os self url) = Raise e).
Proof.
  split; [|split; [|split; [|split; [|split]]]].
  - intros m. rewrite get_unfold.
    destruct (_prepare_command os self) as [[resolved|e] t]; [|done].
    destruct (encode_ascii (request_line os url)); [|done].
    apply conclude_valid.
  - intros cmd input shell rc out err Hrun Hexit.
    destruct (get_launch _ _ _ _ _ _ Hrun) as (_ & _ & _ & _ & _ & _ & ->).
    rewrite Hexit. simpl. destruct (Z.eqb_spec rc 0) as [->|Hrc].
    + case_decide; [left|right]; by auto.
    + right. by auto.
  - intros cmd input shell Hrun Hmissing.
    destruct (get_launch _ _ _ _ _ _ Hrun) as (_ & _ & _ & _ & _ & _ & ->).
    by rewrite Hmissing.
  - intros e Hfail. split; [|by apply (prepare_command_raises os self)].
    rewrite get_unfold.
    destruct (_prepare_command os self) as [[?|?] t]; by simplify_eq/=.
  - intros resolved e Hres Henc. fold (request_line os url) in Henc.
    assert (get os self url = (Raise e, trace (_prepare_command os self))) as Hget.
    { rewrite get_unfold, Henc.
      destruct (_prepare_command os self) as [[?|?] t]; by simplify_eq/=. }
    destruct (encode_ascii_from_raises _ _ _ Henc) as [pos ->].
    split; [done|]. split; [by eexists|]. rewrite Hget. split; [done|].
    intros cmd input shell. apply prepare_command_trace_run.
  - intros cmd input shell e Hrun Hfail Hfound Hcalled.
    destruct (get_launch _ _ _ _ _ _ Hrun) as (_ & _ & _ & _ & _ & _ & ->).
    rewrite Hfail. destruct e; try done. by destruct (Hcalled returncode stderr).
Qed.

Lemma get_returns_only_valid_credentials_witness :
  is_credential_not_found
    (outcome (get (Posix.answering 0 (b "username=username") [])
                  (helper (u "dummy")) (u "dummy"))) = true.
Proof.
  destruct (get_returns_only_valid_credentials
              (Posix.answering 0 (b "username=username") [])
              (helper (u "dummy")) (u "dummy")) as (_ & Hexit & _).
  destruct (Hexit (ArgvCmd [u "git-credential-dummy"; u "get"])
                  (b "url=dummy" ++ [LF]) false 0%Z (b "username=username") [])
    as [(_ & (_ & _ & Hpassword) & _)|[_ Hraise]].
  - in_trace.
  - reflexivity.
  - rewrite (read_credentials_lines _ [b "username=username"]) in Hpassword
      by (vm_compute; reflexivity).
    cbn [foldl] in Hpassword.
    rewrite (read_line_accept _ (b "username=username") (b "username") (b "username")) in Hpassword
      by (vm_compute; reflexivity).
    rewrite lookup_insert_ne, lookup_empty in Hpassword by discriminate.
    by destruct Hpassword.
  - exact Hraise.
Defined.

(** ** The request and the answer *)

(** C9. Once the command is resolved, [get] with a URL (and a line
    terminator) within ASCII launches the helper, exactly once and as its
    last system call, and the bytes on the standard input of that launch are
    the ASCII encoding of the one line ["url=" + url + os.linesep], byte for
    byte.  Conversely every launch of the helper by [get] receives exactly
    these bytes.  For a URL with a character outside ASCII, once the command
    is resolved, [get] raises [UnicodeEncodeError]: the helper is not
    launched and the failure is not turned into
    [CredentialNotFoundError]. *)
Theorem get_request_is_ascii_url_line
    (os : OS) (self : CredentialHelper) (url : str) :
  (∀ resolved,
     outcome (_prepare_command os self) = Ok resolved →
     Forall (λ c, c < 128) url →
     Forall (λ c, c < 128) (os_linesep os) →
     ∃ input,
       encode_ascii (u "url=" ++ url ++ os_linesep os) = Ok input
       ∧ Byte.to_N <$> input = u "url=" ++ url ++ os_linesep os
       ∧ trace (get os self url)
         = trace (_prepare_command os self)
           ++ [EvRun (add_verb resolved) input (_run_kwargs_shell self)])
  ∧ (∀ cmd input shell,
       EvRun cmd input shell ∈ trace (get os self url) →
       encode_ascii (u "url=" ++ url ++ os_linesep os) = Ok input
       ∧ Byte.to_N <$> input = u "url=" ++ url ++ os_linesep os
       ∧ Forall (λ c, c < 128) url
       ∧ filter (λ ev, is_run ev = true) (trace (get os self url))
         = [EvRun cmd input shell])
  ∧ (Exists (λ c, 128 ≤ c) url →
     ∀ resolved,
       outcome (_prepare_command os self) = Ok resolved →
       (∃ pos, outcome (get os self url) = Raise (UnicodeEncodeError pos))
       ∧ is_credential_not_found (outcome (get os self url)) = false
       ∧ filter (λ ev, is_run ev = true) (trace (get os self url)) = []).
Proof.
  pose proof (prepare_command_no_run os self) as Hno.
  assert (filter (λ ev, is_run ev = true) (trace (_prepare_command os self)) = [])
    as Hfilter.
  { induction (trace (_prepare_command os self)) as [|ev t IH]; [done|].
    simpl in Hno. apply andb_true_iff in Hno as [Hev Ht].
    rewrite filter_cons_False; [by apply IH|].
    by destruct (is_run ev). }
  split; [|split].
  - intros resolved Hres Hurl Hsep.
    destruct (encode_ascii_from_ascii 0 (request_line os url)) as [input Henc].
    { unfold request_line. rewrite !Forall_app. split; [apply url_key_ascii|done]. }
    exists input. split; [exact Henc|].
    split; [by apply encode_ascii_from_ok in Henc as [_ ?]|].
    rewrite get_unfold. unfold encode_ascii. rewrite Henc. unfold outcome in Hres.
    by destruct (_prepare_command os self) as [[?|?] t]; simplify_eq/=.
  - intros cmd input shell Hrun.
    destruct (get_launch _ _ _ _ _ _ Hrun) as (_ & _ & _ & Henc & _ & Htrace & _).
    unfold request_line in Henc. split; [done|].
    destruct (encode_ascii_from_ok _ _ _ Henc) as [Hall Hbytes].
    split; [done|]. split.
    + by apply Forall_app in Hall as [_ [Hurl _]%Forall_app].
    + by rewrite Htrace, filter_app, Hfilter.
  - intros Hex resolved Hres. rewrite get_unfold.
    destruct (_prepare_command os self) as [[?|?] t]; simplify_eq/=.
    destruct (encode_ascii_from_non_ascii 0 (request_line os url)) as [pos Hpos].
    { unfold request_line. apply Exists_app. right. apply Exists_app. by left. }
    unfold encode_ascii. rewrite Hpos. simpl. eauto.
Qed.

Lemma get_request_is_ascii_url_line_witness :
  (∃ input,
     Byte.to_N <$> input = u "url=" ++ u "https://example.com" ++ [10]
     ∧ trace (get (Posix.answering 0 [] []) (helper (u "foo")) (u "https://example.com"))
       = [EvWhich (u "git-credential-foo") None]
         ++ [EvRun (ArgvCmd [u "git-credential-foo"; u "get"]) input false])
  ∧ encode_ascii (u "url=https://example.com" ++ [10])
    = Ok (b "url=https://example.com" ++ [LF])
  ∧ ∃ pos,
      outcome (get (Posix.answering 0 [] []) (helper (u "foo")) [233])
      = Raise (UnicodeEncodeError pos).
Proof.
  split; [|split].
  - destruct (get_request_is_ascii_url_line
                (Posix.answering 0 [] []) (helper (u "foo"))
                (u "https://example.com")) as [Hlaunch _].
    destruct (Hlaunch (ArgvCmd [u "git-credential-foo"])) as (input & _ & Hbytes & Htrace).
    + reflexivity.
    + repeat constructor.
    + repeat constructor.
    + by exists input.
  - destruct (get_request_is_ascii_url_line
                (Posix.answering 0 [] []) (helper (u "foo"))
                (u "https://example.com")) as (_ & Hinput & _).
    destruct (Hinput (ArgvCmd [u "git-credential-foo"; u "get"])
                     (b "url=https://example.com" ++ [LF]) false) as [Henc _].
    + in_trace.
    + exact Henc.
  - destruct (get_request_is_ascii_url_line
                (Posix.answering 0 [] []) (helper (u "foo")) [233]) as (_ & _ & Hfail).
    assert (Exists (λ c, 128 ≤ c) [233]) as Hurl by (left; lia).
    destruct (Hfail Hurl (ArgvCmd [u "git-credential-foo"]) eq_refl) as [Hraise _].
    exact Hraise.
Defined.

(** C3, as stated, fails: the line [password=a=b] has [password] before its
    first [=] and [a=b] after it, yet nothing is accumulated for it. *)
Lemma read_line_further_equals_sign_skipped :
  split_first equals_sign (b "password=a=b") = Some (b "password", b "a=b")
  ∧ read_line ∅ (b "password=a=b") = ∅
  ∧ read_line ∅ (b "password=a=b") !! b "password" = None
  ∧ (<[b "password" := b "a=b"]> ∅ : gmap bytes bytes) !! b "password"
    = Some (b "a=b").
Proof.
  assert (read_line ∅ (b "password=a=b") = ∅) as Hskip
    by (apply read_line_skip; vm_compute; reflexivity).
  split; [reflexivity|]. split; [exact Hskip|]. split.
  - rewrite Hskip. apply lookup_empty.
  - apply lookup_insert_eq.
Qed.

(** C3, amended.  A line is cut at the first [=] into the text before it
    and everything after it.  When that remainder holds no further [=], the
    text before becomes the key and the remainder the value accumulated into
    the mapping; when it holds a further [=], the line leaves the mapping
    unchanged. *)
Theorem read_line_single_equals_sign
    (credentials : gmap bytes bytes) (line key value : bytes) :
  split_first equals_sign line = Some (key, value) →
  (equals_sign ∉ value → read_line credentials line = <[key := value]> credentials)
  ∧ (equals_sign ∈ value → read_line credentials line = credentials).
Proof.
  intros Hsplit. rewrite read_line_parsed. split; intros Hvalue.
  - by rewrite (parsed_once _ _ _ Hsplit Hvalue).
  - by rewrite (parsed_more _ _ _ Hsplit Hvalue).
Qed.

Lemma read_line_single_equals_sign_witness :
  read_line ∅ (b "username=alice") = <[b "username" := b "alice"]> ∅.
Proof.
  destruct (read_line_single_equals_sign
              ∅ (b "username=alice") (b "username") (b "alice") eq_refl)
    as [Hone _].
  apply Hone. absent_byte.
Defined.

(** C8. A line of the wrong shape (one that does not split into exactly a
    key and a value, in particular a line without [=]) is skipped and the
    lines after it are read as if it were absent; and when several accepted
    lines carry the same key, the mapping holds the value of the last one. *)
Theorem read_lines_skip_and_last_wins (before after : list bytes) (line : bytes) :
  (equals_sign ∉ line → parsed line = None)
  ∧ (parsed line = None →
     read_lines (before ++ line :: after) = read_lines (before ++ after))
  ∧ (∀ key value,
       parsed line = Some (key, value) →
       (∀ later value', later ∈ after → parsed later ≠ Some (key, value')) →
       read_lines (before ++ line :: after) !! key = Some value).
Proof.
  split; [apply parsed_absent|]. unfold read_lines. split.
  - intros Hskip. rewrite !foldl_app. simpl.
    by rewrite (read_line_parsed _ line), Hskip.
  - intros key value Hline Hlast. rewrite foldl_app. simpl.
    apply read_lines_from; [|done].
    rewrite (read_line_parsed _ line), Hline. apply lookup_insert_eq.
Qed.

Lemma read_lines_skip_and_last_wins_witness :
  read_lines [b "username=u"; b "chatter"; b "password=p"]
  = read_lines [b "username=u"; b "password=p"]
  ∧ read_lines [b "password=old"; b "password=new"; b "username=u"] !! b "password"
    = Some (b "new").
Proof.
  split.
  - destruct (read_lines_skip_and_last_wins
                [b "username=u"] [b "password=p"] (b "chatter"))
      as (Habsent & Hskip & _).
    apply Hskip, Habsent. absent_byte.
  - destruct (read_lines_skip_and_last_wins
                [b "password=old"] [b "username=u"] (b "password=new"))
      as (_ & _ & Hlast).
    apply (Hlast (b "password") (b "new") eq_refl).
    intros later value' ->%list_elem_of_singleton. discriminate.
Defined.

(** C10. A line [key=] with nothing after the [=] is accepted with the empty
    byte string as its value; so when the helper exits with status zero and
    prints [username=] and [password=], the acceptance check passes and [get]
    returns the mapping of both keys to empty byte strings. *)
Theorem get_accepts_empty_values :
  (∀ (credentials : gmap bytes bytes) (key : bytes),
     equals_sign ∉ key →
     read_line credentials (key ++ [equals_sign]) = <[key := []]> credentials)
  ∧ (∀ (os : OS) (self : CredentialHelper) (url : str)
       (cmd : command) (input : bytes) (shell : bool) (stderr : bytes),
       EvRun cmd input shell ∈ trace (get os self url) →
       run_answer os cmd input shell
       = Exited 0 (b "username=" ++ [LF] ++ b "password=" ++ [LF]) stderr →
       outcome (get os self url)
       = Ok (<[b "password" := []]> (<[b "username" := []]> ∅))).
Proof.
  split.
  - intros credentials key Hkey. rewrite read_line_parsed.
    assert (split_first equals_sign (key ++ [equals_sign]) = Some (key, [])) as Hsplit.
    { induction key as [|c key IH]; [done|].
      apply not_elem_of_cons in Hkey as [Hc Hkey]. simpl.
      rewrite byte_eqb_decide, bool_decide_eq_false_2 by done.
      by rewrite IH. }
    rewrite (parsed_once _ _ _ Hsplit); [done|]. apply not_elem_of_nil.
  - intros os self url cmd input shell stderr Hrun Hexit.
    destruct (get_launch _ _ _ _ _ _ Hrun) as (_ & _ & _ & _ & _ & _ & ->).
    rewrite Hexit. cbn [conclude Z.eqb].
    rewrite (read_credentials_lines _ [b "username="; b "password="])
      by (vm_compute; reflexivity).
    cbn [foldl].
    rewrite (read_line_accept _ (b "password=") (b "password") [])
      by (vm_compute; reflexivity).
    rewrite (read_line_accept _ (b "username=") (b "username") [])
      by (vm_compute; reflexivity).
    rewrite decide_True; [done|]. split; [|split].
    + apply insert_non_empty.
    + rewrite lookup_insert_ne by discriminate. rewrite lookup_insert_eq. by eexists.
    + rewrite lookup_insert_eq. by eexists.
Qed.

Lemma get_accepts_empty_values_witness :
  outcome (get (Posix.answering 0 (b "username=" ++ [LF] ++ b "password=" ++ [LF]) [])
               (helper (u "foo")) (u "https://example.com"))
  = Ok (<[b "password" := []]> (<[b "username" := []]> ∅)).
Proof.
  destruct get_accepts_empty_values as [_ Hget].
  apply (Hget _ _ _ (ArgvCmd [u "git-credential-foo"; u "get"])
              (b "url=https://example.com" ++ [LF]) false []).
  - in_trace.
  - reflexivity.
Defined.

(** * Further properties of the module *)

(** ** Command resolution: the remaining branches *)

(** X1. When the first token of the command is an absolute path, resolution
    returns the argument vector unchanged and consults neither the search
    path nor git. *)
Theorem prepare_command_absolute_path
    (os : OS) (self : CredentialHelper) (c0 : N) (argv0 : str) (rest : list str) :
  getitem0 (_command self) = Ok c0 →
  c0 ≠ bang →
  tokenize os (_command self) = Ok (argv0 :: rest) →
  os_path_isabs os argv0 = true →
  _prepare_command os self = (Ok (ArgvCmd (argv0 :: rest)), []).
Proof.
  intros Hc0 Hbang Htok Habs. unfold _prepare_command.
  rewrite Hc0. cbn [lift bind]. apply N.eqb_neq in Hbang.
  rewrite Hbang, Htok. cbn [bind getitem0 lift]. by rewrite Habs.
Qed.

Lemma prepare_command_absolute_path_witness :
  _prepare_command Posix.bare (helper (u "/path/to/executable --foo"))
  = (Ok (ArgvCmd [u "/path/to/executable"; u "--foo"]), []).
Proof.
  apply (prepare_command_absolute_path
           Posix.bare (helper (u "/path/to/executable --foo"))
           47 (u "/path/to/executable") [u "--foo"]).
  - reflexivity.
  - discriminate.
  - reflexivity.
  - reflexivity.
Defined.

Lemma shlex_tokens_blank s :
  Forall (λ c, shlex_whitespace c = true) s →
  shlex_tokens LexSpace false [] s = Ok [].
Proof.
  induction 1 as [|c s Hc _ IH]; [done|]. simpl. by rewrite Hc, IH.
Qed.

Lemma shlex_whitespace_isspace c : shlex_whitespace c = true → str_isspace c = true.
Proof.
  unfold shlex_whitespace. rewrite !orb_true_iff, !N.eqb_eq.
  by intros [[[->| ->]| ->]| ->].
Qed.

Lemma lstrip_all {A} (sp : A → bool) s :
  Forall (λ c, sp c = true) s → lstrip sp s = [].
Proof. induction 1 as [|c s Hc _ IH]; [done|]. simpl. by rewrite Hc. Qed.

(** X2. A command made only of blanks (spaces, tabs, line breaks) has no
    first token: on every platform resolution raises [IndexError] without
    consulting the system, and so does [get]. *)
Theorem prepare_command_blank_command
    (os : OS) (self : CredentialHelper) (url : str) :
  _command self ≠ [] →
  Forall (λ c, shlex_whitespace c = true) (_command self) →
  _prepare_command os self = (Raise IndexError, [])
  ∧ get os self url = (Raise IndexError, []).
Proof.
  intros Hne Hblank.
  assert (_prepare_command os self = (Raise IndexError, [])) as Hprep.
  { unfold _prepare_command, tokenize, shlex_split, str_split_maxsplit1.
    rewrite (shlex_tokens_blank _ Hblank).
    rewrite (lstrip_all str_isspace (_command self))
      by (eapply Forall_impl; [done|apply shlex_whitespace_isspace]).
    destruct (_command self) as [|c0 cmd]; [done|]. cbn [getitem0 lift bind].
    apply Forall_cons_1 in Hblank as [Hc0 _].
    destruct (N.eqb_spec c0 bang) as [->|_]; [done|].
    by destruct (decide (sys_platform os = u "win32")). }
  split; [done|]. by rewrite get_unfold, Hprep.
Qed.

Lemma prepare_command_blank_command_witness :
  get Posix.bare (helper [32; 9]) (u "dummy") = (Raise IndexError, []).
Proof.
  apply (prepare_command_blank_command Posix.bare (helper [32; 9]) (u "dummy")).
  - discriminate.
  - repeat constructor.
Defined.

(** X3. For a short helper name, resolution consults the system in a fixed
    order and only as far as needed: the helper on the search path first;
    git only when the helper is not there; [git --exec-path] only when git
    is there; and last the helper inside the reported directory. *)
Theorem prepare_command_system_calls
    (os : OS) (self : CredentialHelper) (c0 : N) (argv0 : str) (rest : list str) :
  getitem0 (_command self) = Ok c0 →
  c0 ≠ bang →
  tokenize os (_command self) = Ok (argv0 :: rest) →
  os_path_isabs os argv0 = false →
  let executable := u "git-credential-" ++ argv0 in
  let git_query := [u "git"; u "--exec-path"] in
  (truthy (which_answer os executable None) = true →
   trace (_prepare_command os self) = [EvWhich executable None])
  ∧ (truthy (which_answer os executable None) = false →
     truthy (which_answer os (u "git") None) = false →
     trace (_prepare_command os self)
     = [EvWhich executable None; EvWhich (u "git") None])
  ∧ (truthy (which_answer os executable None) = false →
     truthy (which_answer os (u "git") None) = true →
     ∀ out, check_output_answer os git_query = Ok out →
       trace (_prepare_command os self)
       = [EvWhich executable None; EvWhich (u "git") None;
          EvCheckOutput git_query; EvWhich executable (Some (str_strip out))]).
Proof.
  intros Hc0 Hbang Htok Habs executable git_query.
  unfold _prepare_command. rewrite Hc0. cbn [lift bind].
  apply N.eqb_neq in Hbang. rewrite Hbang, Htok. cbn [bind getitem0 lift].
  rewrite Habs. fold executable. unfold shutil_which. cbn [bind].
  split; [|split].
  - by intros ->.
  - by intros -> ->.
  - intros -> -> out Hout. cbn [negb bind]. unfold subprocess_check_output.
    fold git_query. rewrite Hout. cbn [bind].
    by destruct (truthy (which_answer os executable (Some (str_strip out)))).
Qed.

Lemma prepare_command_system_calls_witness :
  trace (_prepare_command (Posix.answering 0 [] []) (helper (u "foo")))
  = [EvWhich (u "git-credential-foo") None].
Proof.
  destruct (prepare_command_system_calls
              (Posix.answering 0 [] []) (helper (u "foo")) 102 (u "foo") [])
    as [Hfound _].
  - reflexivity.
  - discriminate.
  - reflexivity.
  - reflexivity.
  - apply Hfound. reflexivity.
Defined.

(** X4. When the helper is not on the search path, git is, and
    [git --exec-path] fails, the failure is not absorbed: resolution raises
    that very exception, without probing further, and [get] raises it too
    without launching the helper. *)
Theorem prepare_command_exec_path_failure
    (os : OS) (self : CredentialHelper) (url : str)
    (c0 : N) (argv0 : str) (rest : list str) (e : exn) :
  getitem0 (_command self) = Ok c0 →
  c0 ≠ bang →
  tokenize os (_command self) = Ok (argv0 :: rest) →
  os_path_isabs os argv0 = false →
  truthy (which_answer os (u "git-credential-" ++ argv0) None) = false →
  truthy (which_answer os (u "git") None) = true →
  check_output_answer os [u "git"; u "--exec-path"] = Raise e →
  _prepare_command os self
  = (Raise e,
     [EvWhich (u "git-credential-" ++ argv0) None; EvWhich (u "git") None;
      EvCheckOutput [u "git"; u "--exec-path"]])
  ∧ get os self url
    = (Raise e,
       [EvWhich (u "git-credential-" ++ argv0) None; EvWhich (u "git") None;
        EvCheckOutput [u "git"; u "--exec-path"]]).
Proof.
  intros Hc0 Hbang Htok Habs Hexe Hgit Hout.
  assert (_prepare_command os self
          = (Raise e,
             [EvWhich (u "git-credential-" ++ argv0) None; EvWhich (u "git") None;
              EvCheckOutput [u "git"; u "--exec-path"]])) as Hprep.
  { unfold _prepare_command. rewrite Hc0. cbn [lift bind].
    apply N.eqb_neq in Hbang. rewrite Hbang, Htok. cbn [bind getitem0 lift].
    rewrite Habs. unfold shutil_which. cbn [bind]. rewrite Hexe. cbn [negb bind].
    rewrite Hgit. unfold subprocess_check_output. by rewrite Hout. }
  split; [done|]. by rewrite get_unfold, Hprep.
Qed.

Lemma prepare_command_exec_path_failure_witness :
  outcome (get (Posix.make
                  (λ cmd _, if decide (cmd = u "git") then Some (u "/usr/bin/git") else None)
                  (λ _, Raise (CalledProcessError 128 PyNone))
                  (λ _ _ _, NotStarted FileNotFoundError))
               (helper (u "store")) (u "dummy"))
  = Raise (CalledProcessError 128 PyNone).
Proof.
  destruct (prepare_command_exec_path_failure
              (Posix.make
                 (λ cmd _, if decide (cmd = u "git") then Some (u "/usr/bin/git") else None)
                 (λ _, Raise (CalledProcessError 128 PyNone))
                 (λ _ _ _, NotStarted FileNotFoundError))
              (helper (u "store")) (u "dummy") 115 (u "store") []
              (CalledProcessError 128 PyNone)) as [_ Hget].
  - reflexivity.
  - discriminate.
  - reflexivity.
  - reflexivity.
  - reflexivity.
  - reflexivity.
  - reflexivity.
  - by rewrite Hget.
Defined.

(** ** [get]: how resolution, encoding and launch compose *)

(** X5. When command resolution raises, [get] raises the same exception
    after the same system calls; the helper is not launched and the failure
    is not turned into [CredentialNotFoundError]. *)
Theorem get_resolution_failure
    (os : OS) (self : CredentialHelper) (url : str) (e : exn) :
  outcome (_prepare_command os self) = Raise e →
  get os self url = (Raise e, trace (_prepare_command os self))
  ∧ ∀ cmd input shell, EvRun cmd input shell ∉ trace (get os self url).
Proof.
  intros Hfail.
  assert (get os self url = (Raise e, trace (_prepare_command os self))) as Hget.
  { rewrite get_unfold. destruct (_prepare_command os self) as [[?|?] t]; by simplify_eq/=. }
  split; [done|]. intros cmd input shell. rewrite Hget.
  apply prepare_command_trace_run.
Qed.

Lemma get_resolution_failure_witness :
  get Posix.bare (helper (u "foo 'bar")) (u "dummy")
  = (Raise (ValueError (u "No closing quotation")), []).
Proof.
  destruct (get_resolution_failure
              Posix.bare (helper (u "foo 'bar")) (u "dummy")
              (ValueError (u "No closing quotation"))) as [Hget _].
  - reflexivity.
  - exact Hget.
Defined.

Lemma prepare_command_form os self resolved :
  outcome (_prepare_command os self) = Ok resolved →
  (∃ rest, _command self = bang :: rest ∧ resolved = ShellCmd rest)
  ∨ (∃ c0 argv, getitem0 (_command self) = Ok c0 ∧ c0 ≠ bang
                ∧ resolved = ArgvCmd argv).
Proof.
  unfold _prepare_command.
  destruct (_command self) as [|c0 rest]; [done|]. cbn [getitem0 lift bind].
  destruct (N.eqb_spec c0 bang) as [->|Hbang].
  - intros [= <-]. left. by exists rest.
  - intros Hres. right. exists c0.
    assert (∃ argv, resolved = ArgvCmd argv) as [argv ->]; [|by eauto].
    revert Hres. unfold lift, ret, shutil_which, subprocess_check_output, bind, outcome.
    repeat case_match; simplify_eq/=; intros; simplify_eq; by eauto.
Qed.

(** X6. For a helper built by [CredentialHelper(command)], every launch by
    [get] agrees with the form of the command: a command that begins with
    [!] is handed to a shell as the rest of the string followed by [" get"];
    any other command is run without a shell, as an argument vector whose
    last element is ["get"]. *)
Theorem get_launch_form
    (os : OS) (command_spec : str) (self : CredentialHelper) (url : str)
    (cmd : command) (input : bytes) (shell : bool) :
  __init__ command_spec = Ok self →
  EvRun cmd input shell ∈ trace (get os self url) →
  (∃ rest, command_spec = bang :: rest
           ∧ cmd = ShellCmd (rest ++ u " get") ∧ shell = true)
  ∨ (∃ c0 argv, getitem0 command_spec = Ok c0 ∧ c0 ≠ bang
                ∧ cmd = ArgvCmd (argv ++ [u "get"]) ∧ shell = false).
Proof.
  intros Hinit Hrun. unfold __init__ in Hinit.
  destruct (getitem0 command_spec) as [c|] eqn:Hc; [|done]. simplify_eq.
  destruct (get_launch _ _ _ _ _ _ Hrun) as (resolved & Hres & -> & _ & -> & _).
  destruct (prepare_command_form _ _ _ Hres)
    as [(rest & Hcmd & ->)|(c0 & argv & Hc0 & Hbang & ->)]; simpl in *.
  - left. exists rest. rewrite Hcmd in Hc. by simplify_eq/=.
  - right. exists c0, argv. rewrite Hc in Hc0. simplify_eq.
    repeat split; [done|]. by apply N.eqb_neq.
Qed.

Lemma get_launch_form_witness :
  ∃ rest, u "!f() { echo foo}; f" = bang :: rest
          ∧ ShellCmd (u "f() { echo foo}; f get") = ShellCmd (rest ++ u " get").
Proof.
  destruct (get_launch_form
              (Posix.answering 0 [] []) (u "!f() { echo foo}; f")
              (helper (u "!f() { echo foo}; f")) (u "dummy")
              (ShellCmd (u "f() { echo foo}; f get")) (b "url=dummy" ++ [LF]) true)
    as [(rest & Hcmd & Hshell & _)|(c0 & argv & _ & _ & Hargv & _)].
  - reflexivity.
  - in_trace.
  - by exists rest.
  - discriminate.
Defined.

(** X7. Once the command is resolved, a URL and line terminator within
    ASCII always lead to the launch: the helper is started exactly once,
    after the system calls of resolution, with one byte per character of the
    request line on its standard input. *)
Theorem get_launches_once
    (os : OS) (self : CredentialHelper) (url : str) (resolved : command) :
  outcome (_prepare_command os self) = Ok resolved →
  Forall (λ c, c < 128) url →
  Forall (λ c, c < 128) (os_linesep os) →
  ∃ input,
    Byte.to_N <$> input = u "url=" ++ url ++ os_linesep os
    ∧ trace (get os self url)
      = trace (_prepare_command os self)
        ++ [EvRun (add_verb resolved) input (_run_kwargs_shell self)].
Proof.
  intros Hres Hurl Hsep.
  destruct (encode_ascii_from_ascii 0 (request_line os url)) as [input Henc].
  { unfold request_line. rewrite !Forall_app. split; [apply url_key_ascii|done]. }
  exists input. split; [by apply encode_ascii_from_ok in Henc as [_ ?]|].
  rewrite get_unfold. unfold encode_ascii. rewrite Henc.
  unfold outcome in Hres. by destruct (_prepare_command os self) as [[?|?] t]; simplify_eq/=.
Qed.

Lemma get_launches_once_witness :
  ∃ input,
    Byte.to_N <$> input = u "url=" ++ u "dummy" ++ [10]
    ∧ trace (get Posix.bare (helper (u "/path/to/exe")) (u "dummy"))
      = [] ++ [EvRun (ArgvCmd [u "/path/to/exe"; u "get"]) input false].
Proof.
  apply (get_launches_once Posix.bare (helper (u "/path/to/exe")) (u "dummy")
           (ArgvCmd [u "/path/to/exe"])).
  - reflexivity.
  - repeat constructor.
  - repeat constructor.
Defined.

(** X8. Only two failures of the launch are turned into
    [CredentialNotFoundError].  Any other exception raised by the launch
    (a permission error, say) reaches the caller of [get] unchanged. *)
Theorem get_other_launch_failure
    (os : OS) (self : CredentialHelper) (url : str)
    (cmd : command) (input : bytes) (shell : bool) (e : exn) :
  EvRun cmd input shell ∈ trace (get os self url) →
  run_answer os cmd input shell = NotStarted e →
  e ≠ FileNotFoundError →
  (∀ returncode stderr, e ≠ CalledProcessError returncode stderr) →
  outcome (get os self url) = Raise e.
Proof.
  intros Hrun Hfail Hfound Hcalled.
  destruct (get_launch _ _ _ _ _ _ Hrun) as (_ & _ & _ & _ & _ & _ & ->).
  rewrite Hfail. destruct e; try done. by destruct (Hcalled returncode stderr).
Qed.

Lemma get_other_launch_failure_witness :
  outcome (get (Posix.make (λ _ _, None) (λ _, Raise FileNotFoundError)
                           (λ _ _ _, NotStarted (OtherError "PermissionError")))
               (helper (u "/path/to/exe")) (u "dummy"))
  = Raise (OtherError "PermissionError").
Proof.
  apply (get_other_launch_failure
           (Posix.make (λ _ _, None) (λ _, Raise FileNotFoundError)
                       (λ _ _ _, NotStarted (OtherError "PermissionError")))
           (helper (u "/path/to/exe")) (u "dummy")
           (ArgvCmd [u "/path/to/exe"; u "get"]) (b "url=dummy" ++ [LF]) false).
  - in_trace.
  - reflexivity.
  - discriminate.
  - discriminate.
Defined.

(** ** The answer of the helper: what the mapping can hold *)

Lemma parsed_shape line key value :
  parsed line = Some (key, value) →
  line = key ++ equals_sign :: value
  ∧ (equals_sign ∉ key) ∧ (equals_sign ∉ value).
Proof.
  intros Hparsed.
  destruct (decide (equals_sign ∈ line)) as [Hin|Hout].
  2:{ by rewrite parsed_absent in Hparsed. }
  destruct (split_first_present _ _ Hin) as (k & v & Hsplit).
  destruct (decide (equals_sign ∈ v)) as [Hv|Hv].
  { by rewrite (parsed_more _ _ _ Hsplit Hv) in Hparsed. }
  rewrite (parsed_once _ _ _ Hsplit Hv) in Hparsed. simplify_eq.
  by destruct (split_first_shape _ _ _ _ Hsplit).
Qed.

Lemma read_lines_origin credentials lines key value :
  foldl read_line credentials lines !! key = Some value →
  credentials !! key = Some value
  ∨ ∃ line, line ∈ lines ∧ parsed line = Some (key, value).
Proof.
  revert credentials. induction lines as [|line lines IH]; intros m; [by left|].
  simpl. intros [Hm|(l & Hl & Hp)]%IH.
  - rewrite read_line_parsed in Hm.
    destruct (parsed line) as [[k v]|] eqn:Hparsed; [|by left].
    destruct (decide (k = key)) as [->|Hne].
    + rewrite lookup_insert_eq in Hm. simplify_eq. right. exists line.
      split; [by left|done].
    + rewrite lookup_insert_ne in Hm by done. by left.
  - right. exists l. split; [by right|done].
Qed.

Lemma no_line_break_snoc s c :
  no_line_break s → c ≠ LF → c ≠ CR → no_line_break (s ++ [c]).
Proof.
  intros [HLF HCR] ??.
  split; rewrite elem_of_app, list_elem_of_singleton; intros [?|?]; congruence.
Qed.

Lemma splitlines_from_no_break s :
  (∀ cur line, no_line_break cur → line ∈ splitlines_from cur s → no_line_break line)
  ∧ (∀ cur line, no_line_break cur → line ∈ splitlines_from cur (tail s) →
       no_line_break line).
Proof.
  induction s as [|c rest [IH IHtail]].
  - assert (∀ cur line, no_line_break cur → line ∈ splitlines_from cur [] →
              no_line_break line) as Hnil.
    { intros cur line Hcur. simpl.
      destruct cur; [by intros ?%elem_of_nil|]. by intros ->%list_elem_of_singleton. }
    by split.
  - split; [|exact IH]. intros cur line Hcur. simpl.
    rewrite !byte_eqb_decide. case_bool_decide as HLF.
    { intros [->|Hin]%elem_of_cons; [done|]. eapply IH; [|done].
      split; apply not_elem_of_nil. }
    case_bool_decide as HCR.
    + destruct rest as [|c' rest'].
      { intros [->|Hin]%elem_of_cons; [done|]. by apply elem_of_nil in Hin. }
      rewrite byte_eqb_decide. case_bool_decide.
      * intros [->|Hin]%elem_of_cons; [done|]. eapply IHtail; [|done].
        split; apply not_elem_of_nil.
      * intros [->|Hin]%elem_of_cons; [done|]. eapply IH; [|done].
        split; apply not_elem_of_nil.
    + intros Hin. eapply IH; [|done]. by apply no_line_break_snoc.
Qed.

Lemma bytes_splitlines_no_break s line :
  line ∈ bytes_splitlines s → no_line_break line.
Proof.
  apply (proj1 (splitlines_from_no_break s)). split; apply not_elem_of_nil.
Qed.

(** X9. Every pair of a mapping returned by [get] was printed by the helper
    as a line [key=value] of its (stripped) standard output, and neither the
    key nor the value holds an [=] or a line break. *)
Theorem get_returns_printed_pairs
    (os : OS) (self : CredentialHelper) (url : str)
    (cmd : command) (input : bytes) (shell : bool)
    (returncode : Z) (stdout stderr : bytes)
    (credentials : gmap bytes bytes) (key value : bytes) :
  EvRun cmd input shell ∈ trace (get os self url) →
  run_answer os cmd input shell = Exited returncode stdout stderr →
  outcome (get os self url) = Ok credentials →
  credentials !! key = Some value →
  (key ++ equals_sign :: value) ∈ bytes_splitlines (bytes_strip stdout)
  ∧ (equals_sign ∉ key) ∧ (equals_sign ∉ value)
  ∧ no_line_break key ∧ no_line_break value.
Proof.
  intros Hrun Hexit Hget Hkey.
  destruct (get_launch _ _ _ _ _ _ Hrun) as (_ & _ & _ & _ & _ & _ & Hout).
  rewrite Hget, Hexit in Hout. simpl in Hout.
  destruct (returncode =? 0)%Z; [|done]. case_decide; [|done]. simplify_eq.
  apply read_lines_origin in Hkey as [Hempty|(line & Hline & Hparsed)].
  { by rewrite lookup_empty in Hempty. }
  destruct (parsed_shape _ _ _ Hparsed) as (-> & Hk & Hv).
  split; [done|]. split; [done|]. split; [done|].
  destruct (bytes_splitlines_no_break _ _ Hline) as [HLF HCR].
  rewrite !elem_of_app, !elem_of_cons in HLF, HCR.
  repeat split; tauto.
Qed.

Example get_username_password :
  outcome (get (Posix.answering 0
                  (b "username=username" ++ [LF] ++ b "password=password" ++ [LF]) [])
               (helper (u "foo")) (u "https://example.com"))
  = Ok (<[b "password" := b "password"]> (<[b "username" := b "username"]> ∅)).
Proof.
  rewrite get_unfold. vm_compute _prepare_command. cbv iota beta.
  replace (encode_ascii _) with (Ok (A:=bytes) (b "url=https://example.com" ++ [LF]))
    by (vm_compute; reflexivity).
  cbn [outcome fst Posix.answering Posix.make run_answer conclude Z.eqb].
  rewrite (read_credentials_lines _ [b "username=username"; b "password=password"])
    by (vm_compute; reflexivity).
  cbn [foldl].
  rewrite (read_line_accept _ (b "password=password") (b "password") (b "password"))
    by (vm_compute; reflexivity).
  rewrite (read_line_accept _ (b "username=username") (b "username") (b "username"))
    by (vm_compute; reflexivity).
  rewrite decide_True; [done|]. split; [|split].
  - apply insert_non_empty.
  - rewrite lookup_insert_ne by discriminate. rewrite lookup_insert_eq. by eexists.
  - rewrite lookup_insert_eq. by eexists.
Qed.

Lemma get_returns_printed_pairs_witness :
  (b "password" ++ equals_sign :: b "password")
  ∈ bytes_splitlines
      (bytes_strip (b "username=username" ++ [LF] ++ b "password=password" ++ [LF])).
Proof.
  destruct (get_returns_printed_pairs
              (Posix.answering 0
                 (b "username=username" ++ [LF] ++ b "password=password" ++ [LF]) [])
              (helper (u "foo")) (u "https://example.com")
              (ArgvCmd [u "git-credential-foo"; u "get"])
              (b "url=https://example.com" ++ [LF]) false 0%Z
              (b "username=username" ++ [LF] ++ b "password=password" ++ [LF]) []
              (<[b "password" := b "password"]> (<[b "username" := b "username"]> ∅))
              (b "password") (b "password")) as [Hline _].
  - in_trace.
  - reflexivity.
  - exact get_username_password.
  - apply lookup_insert_eq.
  - exact Hline.
Defined.

(** ** The answer of the helper: whitespace and round trip *)

Lemma lstrip_app_space {A} (sp : A → bool) ws s :
  Forall (λ c, sp c = true) ws → lstrip sp (ws ++ s) = lstrip sp s.
Proof. induction 1 as [|c ws Hc _ IH]; [done|]. simpl. by rewrite Hc. Qed.

Lemma lstrip_app {A} (sp : A → bool) s t :
  lstrip sp (s ++ t) =
    match lstrip sp s with
    | [] => lstrip sp t
    | l => l ++ t
    end.
Proof.
  induction s as [|c s IH]; [done|]. simpl. by destruct (sp c).
Qed.

Lemma rstrip_app_space {A} (sp : A → bool) s ws :
  Forall (λ c, sp c = true) ws → rstrip sp (s ++ ws) = rstrip sp s.
Proof.
  intros Hws. unfold rstrip. rewrite rev_app_distr.
  by rewrite lstrip_app_space by by apply Forall_rev.
Qed.

Lemma bytes_strip_outer ws1 s ws2 :
  Forall (λ c, bytes_isspace c = true) ws1 →
  Forall (λ c, bytes_isspace c = true) ws2 →
  bytes_strip (ws1 ++ s ++ ws2) = bytes_strip s.
Proof.
  intros H1 H2. unfold bytes_strip.
  rewrite (lstrip_app_space _ _ _ H1), lstrip_app.
  destruct (lstrip bytes_isspace s) as [|c l] eqn:Hs.
  - by rewrite (lstrip_all _ _ H2).
  - by apply rstrip_app_space.
Qed.

(** X10. Whitespace around the whole output of the helper does not count:
    blanks and line breaks before the first line and after the last one
    (trailing blanks of the last value included) are dropped before the
    lines are read. *)
Theorem read_credentials_outer_whitespace (ws1 stdout ws2 : bytes) :
  Forall (λ c, bytes_isspace c = true) ws1 →
  Forall (λ c, bytes_isspace c = true) ws2 →
  read_credentials (ws1 ++ stdout ++ ws2) = read_credentials stdout.
Proof.
  intros H1 H2. unfold read_credentials. by rewrite bytes_strip_outer.
Qed.

Lemma read_credentials_outer_whitespace_witness :
  read_credentials ([LF] ++ b "password=secret" ++ b "  ")
  = read_credentials (b "password=secret").
Proof.
  apply (read_credentials_outer_whitespace [LF] (b "password=secret") (b "  ")).
  - repeat constructor.
  - repeat constructor.
Defined.

Lemma strip_clean {A} (sp : A → bool) (s : list A) :
  (∀ c, head s = Some c → sp c = false) →
  (∀ c, last s = Some c → sp c = false) →
  rstrip sp (lstrip sp s) = s.
Proof.
  intros Hhead Hlast.
  assert (lstrip sp s = s) as ->.
  { destruct s as [|c s]; [done|]. simpl. by rewrite (Hhead c). }
  unfold rstrip. destruct s as [|c s _] using rev_ind; [done|].
  rewrite rev_app_distr. simpl. rewrite (Hlast c) by apply last_snoc.
  simpl. by rewrite rev_involutive.
Qed.

Lemma print_pairs_lines terminator pairs :
  print_pairs terminator pairs
  = concat (map (λ line, line ++ terminator) (map line_of pairs)).
Proof.
  unfold print_pairs, line_of. rewrite map_map. f_equal. apply map_ext.
  intros [k v]. simpl. by rewrite <- app_assoc.
Qed.

Lemma join_lines_cons terminator line line' lines :
  join_lines terminator (line :: line' :: lines)
  = line ++ terminator ++ join_lines terminator (line' :: lines).
Proof. done. Qed.

Lemma concat_terminated terminator lines :
  lines ≠ [] →
  concat (map (λ line, line ++ terminator) lines)
  = join_lines terminator lines ++ terminator.
Proof.
  induction lines as [|l [|l' ls] IH]; [done| |]; intros _.
  - simpl. by rewrite app_nil_r.
  - change (concat (map _ (l :: l' :: ls)))
      with ((l ++ terminator) ++ concat (map (λ line, line ++ terminator) (l' :: ls))).
    rewrite IH by done. rewrite join_lines_cons. by rewrite <- !app_assoc.
Qed.

Lemma splitlines_from_line cur line terminator rest :
  no_line_break line →
  terminator = [LF] ∨ terminator = [CR; LF] →
  splitlines_from cur (line ++ terminator ++ rest)
  = (cur ++ line) :: splitlines_from [] rest.
Proof.
  intros Hline Hterm. revert cur.
  induction line as [|c line IH]; intros cur.
  - rewrite app_nil_r. by destruct Hterm as [-> | ->].
  - destruct Hline as [HLF HCR]. apply not_elem_of_cons in HLF as [? HLF].
    apply not_elem_of_cons in HCR as [? HCR]. simpl.
    rewrite !byte_eqb_decide, !bool_decide_eq_false_2 by congruence.
    rewrite IH by done. by rewrite <- app_assoc.
Qed.

Lemma splitlines_from_last cur line :
  no_line_break line → cur ++ line ≠ [] →
  splitlines_from cur line = [cur ++ line].
Proof.
  intros Hline. revert cur. induction line as [|c line IH]; intros cur Hne.
  - rewrite app_nil_r in *. simpl. by destruct cur.
  - destruct Hline as [HLF HCR]. apply not_elem_of_cons in HLF as [? HLF].
    apply not_elem_of_cons in HCR as [? HCR]. simpl.
    rewrite !byte_eqb_decide, !bool_decide_eq_false_2 by congruence.
    rewrite IH; [by rewrite <- app_assoc|done|]. by destruct cur.
Qed.

Lemma bytes_splitlines_join terminator lines :
  terminator = [LF] ∨ terminator = [CR; LF] →
  Forall (λ line, no_line_break line ∧ line ≠ []) lines →
  bytes_splitlines (join_lines terminator lines) = lines.
Proof.
  intros Hterm Hlines. unfold bytes_splitlines.
  induction Hlines as [|l ls [Hl Hne] Hls IH]; [done|].
  destruct ls as [|l' ls].
  - simpl. by rewrite splitlines_from_last.
  - rewrite join_lines_cons, splitlines_from_line by done. by rewrite IH.
Qed.

Lemma line_of_nonempty kv : line_of kv ≠ [].
Proof. unfold line_of. by destruct (kv.1). Qed.

Lemma line_of_clean kv :
  printable kv.1 → printable kv.2 →
  no_line_break (line_of kv) ∧ line_of kv ≠ [] ∧ parsed (line_of kv) = Some kv.
Proof.
  destruct kv as [k v]. unfold printable, no_line_break, line_of. simpl.
  intros (Hk & HkLF & HkCR) (Hv & HvLF & HvCR). split; [|split].
  - split; rewrite elem_of_app, elem_of_cons; intros [?|[?|?]]; done.
  - by destruct k.
  - apply parsed_once; [|done]. clear HkLF HkCR.
    induction k as [|c k IH]; [done|].
    apply not_elem_of_cons in Hk as [Hc Hk]. simpl.
    rewrite byte_eqb_decide, bool_decide_eq_false_2 by done. by rewrite IH.
Qed.

Lemma read_lines_print credentials pairs :
  Forall (λ kv, printable kv.1 ∧ printable kv.2) pairs →
  foldl read_line credentials (map line_of pairs)
  = foldl (λ m kv, <[kv.1 := kv.2]> m) credentials pairs.
Proof.
  intros Hpairs. revert credentials.
  induction Hpairs as [|kv pairs [Hk Hv] _ IH]; intros m; [done|]. simpl.
  destruct (line_of_clean kv Hk Hv) as (_ & _ & Hparsed).
  rewrite (read_line_accept _ _ _ _ (eq_trans Hparsed (f_equal Some (surjective_pairing kv)))).
  apply IH.
Qed.

Lemma head_join_lines terminator line lines :
  line ≠ [] → head (join_lines terminator (line :: lines)) = head line.
Proof.
  intros Hne. destruct lines; [done|]. rewrite join_lines_cons. by destruct line.
Qed.

Lemma last_join_lines terminator lines line :
  last lines = Some line → line ≠ [] →
  last (join_lines terminator lines) = last line.
Proof.
  intros Hlast Hne. induction lines as [|l [|l' ls] IH]; [done| |].
  - by simplify_eq/=.
  - rewrite join_lines_cons, !last_app. rewrite last_cons_cons in Hlast.
    rewrite (IH Hlast). by destruct (last_is_Some line) as [_ [c ->]].
Qed.

Lemma read_credentials_print_pairs terminator pairs :
  terminator = [LF] ∨ terminator = [CR; LF] →
  Forall (λ kv, printable kv.1 ∧ printable kv.2) pairs →
  (∀ kv c, head pairs = Some kv → head kv.1 = Some c → bytes_isspace c = false) →
  (∀ kv c, last pairs = Some kv → last kv.2 = Some c → bytes_isspace c = false) →
  read_credentials (print_pairs terminator pairs) = store_pairs pairs.
Proof.
  intros Hterm Hpairs Hfirst Hlast.
  destruct pairs as [|kv0 pairs0] eqn:Heq; [done|]. rewrite <- Heq in *.
  assert (Forall (λ line, no_line_break line ∧ line ≠ []) (map line_of pairs))
    as Hlines.
  { apply Forall_map. eapply Forall_impl; [done|].
    intros kv [Hk Hv]. by destruct (line_of_clean kv Hk Hv) as (? & ? & _). }
  unfold read_credentials.
  rewrite print_pairs_lines, concat_terminated by by rewrite Heq.
  rewrite <- (app_nil_l (join_lines _ _ ++ _)), bytes_strip_outer;
    [|done|by destruct Hterm as [-> | ->]; repeat constructor].
  unfold bytes_strip. rewrite strip_clean.
  - rewrite bytes_splitlines_join by done. unfold read_lines, store_pairs.
    by apply read_lines_print.
  - intros c. rewrite Heq. cbn [map]. rewrite head_join_lines.
    2:{ apply line_of_nonempty. }
    unfold line_of. rewrite head_app. destruct (head kv0.1) as [c'|] eqn:Hhead.
    + intros [= <-]. eapply (Hfirst kv0); [by rewrite Heq|done].
    + by intros [= <-].
  - intros c.
    destruct (last_is_Some pairs) as [_ [kv Hkv]]; [by rewrite Heq|].
    assert (last (map line_of pairs) = Some (line_of kv)) as Hl.
    { clear -Hkv. induction pairs as [|x [|y l] IH]; [done|by simplify_eq/=|].
      rewrite last_cons_cons in Hkv. cbn [map]. rewrite last_cons_cons. by apply IH. }
    rewrite (last_join_lines _ _ _ Hl) by apply line_of_nonempty.
    unfold line_of. rewrite last_app, last_cons.
    destruct (last kv.2) as [c'|] eqn:Hv.
    + intros [= <-]. by eapply (Hlast kv).
    + by intros [= <-].
Qed.

(** X11. Round trip with a well-behaved helper.  When the helper exits with
    status zero after printing one line [key=value] per pair, each ended by
    LF or by CR LF, with keys and values free of [=] and of line breaks, the
    first key not starting and the last value not ending with whitespace,
    and [username] and [password] among the keys, then [get] returns exactly
    the mapping of those pairs (a later pair replacing an earlier one with
    the same key). *)
Theorem get_returns_printed_mapping
    (os : OS) (self : CredentialHelper) (url : str)
    (cmd : command) (input : bytes) (shell : bool)
    (terminator : bytes) (pairs : list (bytes * bytes)) (stderr : bytes) :
  EvRun cmd input shell ∈ trace (get os self url) →
  run_answer os cmd input shell = Exited 0 (print_pairs terminator pairs) stderr →
  terminator = [LF] ∨ terminator = [CR; LF] →
  Forall (λ kv, printable kv.1 ∧ printable kv.2) pairs →
  (∀ kv c, head pairs = Some kv → head kv.1 = Some c → bytes_isspace c = false) →
  (∀ kv c, last pairs = Some kv → last kv.2 = Some c → bytes_isspace c = false) →
  is_Some (store_pairs pairs !! b "username") →
  is_Some (store_pairs pairs !! b "password") →
  outcome (get os self url) = Ok (store_pairs pairs).
Proof.
  intros Hrun Hexit Hterm Hpairs Hfirst Hlast Husername Hpassword.
  destruct (get_launch _ _ _ _ _ _ Hrun) as (_ & _ & _ & _ & _ & _ & ->).
  rewrite Hexit. cbn [conclude Z.eqb].
  rewrite read_credentials_print_pairs by done.
  rewrite decide_True; [done|]. split; [|done].
  intros Hempty. rewrite Hempty, lookup_empty in Husername. by destruct Husername.
Qed.

Lemma get_returns_printed_mapping_witness :
  outcome (get (Posix.answering 0
                  (print_pairs [CR; LF]
                     [(b "username", b "alice"); (b "password", b "secret")]) [])
               (helper (u "foo")) (u "dummy"))
  = Ok (store_pairs [(b "username", b "alice"); (b "password", b "secret")]).
Proof.
  apply (get_returns_printed_mapping
           (Posix.answering 0
              (print_pairs [CR; LF]
                 [(b "username", b "alice"); (b "password", b "secret")]) [])
           (helper (u "foo")) (u "dummy")
           (ArgvCmd [u "git-credential-foo"; u "get"]) (b "url=dummy" ++ [LF]) false
           [CR; LF] [(b "username", b "alice"); (b "password", b "secret")] []).
  - in_trace.
  - reflexivity.
  - by right.
  - repeat constructor; absent_byte.
  - intros kv c [= <-] [= <-]. reflexivity.
  - intros kv c [= <-] [= <-]. reflexivity.
  - unfold store_pairs. cbn [foldl fst snd].
    rewrite lookup_insert_ne by discriminate. rewrite lookup_insert_eq. by eexists.
  - unfold store_pairs. cbn [foldl fst snd]. rewrite lookup_insert_eq. by eexists.
Defined.

(** ** The first token on Windows *)

Lemma lstrip_split {A} (sp : A → bool) s :
  ∃ pre, s = pre ++ lstrip sp s
         ∧ Forall (λ c, sp c = true) pre
         ∧ ∀ c, head (lstrip sp s) = Some c → sp c = false.
Proof.
  induction s as [|c s (pre & Hs & Hpre & Hhead)].
  - exists []. by repeat split.
  - simpl. destruct (sp c) eqn:Hc.
    + exists (c :: pre). split; [by rewrite Hs at 1|]. split; [by constructor|done].
    + exists []. split; [done|]. split; [done|]. by intros ? [= <-].
Qed.

Lemma span_word_split s w r :
  span_word s = (w, r) →
  s = w ++ r
  ∧ Forall (λ c, str_isspace c = false) w
  ∧ ∀ c, head r = Some c → str_isspace c = true.
Proof.
  revert w. induction s as [|c s IH]; intros w; simpl.
  - intros [= <- <-]. by repeat split.
  - destruct (str_isspace c) eqn:Hc.
    + intros [= <- <-]. split; [done|]. split; [done|]. by intros ? [= <-].
    + destruct (span_word s) as [w' r'] eqn:Hs. intros [= <- <-].
      destruct (IH w' eq_refl) as (-> & Hw & Hr). split; [done|].
      split; [by constructor|done].
Qed.

(** X12. On Windows the first token of the argument vector is the first
    whitespace-delimited word of the raw command string, kept verbatim (no
    quote or backslash is interpreted), while the remaining tokens are those
    of [shlex.split]. *)
Theorem tokenize_windows_first_token
    (os : OS) (command_spec : str) (argv0 : str) (rest : list str) :
  sys_platform os = u "win32" →
  tokenize os command_spec = Ok (argv0 :: rest) →
  (∃ tokens, shlex_split command_spec = Ok tokens ∧ rest = drop 1 tokens)
  ∧ ∃ before after,
      command_spec = before ++ argv0 ++ after
      ∧ Forall (λ c, str_isspace c = true) before
      ∧ argv0 ≠ []
      ∧ Forall (λ c, str_isspace c = false) argv0
      ∧ ∀ c, head after = Some c → str_isspace c = true.
Proof.
  intros Hwin. unfold tokenize.
  destruct (shlex_split command_spec) as [tokens|] eqn:Htokens; [|done].
  rewrite decide_True by done.
  unfold str_split_maxsplit1.
  destruct (lstrip_split str_isspace command_spec) as (before & Hcmd & Hbefore & Hhead).
  destruct (lstrip str_isspace command_spec) as [|c s1] eqn:Hstrip; [done|].
  destruct (span_word (c :: s1)) as [w r] eqn:Hspan.
  assert (∀ l : str, getitem0 (match l with [] => [w] | n :: l' => [w; n :: l'] end)
                     = Ok w) as -> by by intros [].
  destruct tokens as [|t tokens]; [done|]. intros [= <- <-].
  split; [by exists (t :: tokens)|].
  destruct (span_word_split _ _ _ Hspan) as (Hs1 & Hw & Hr).
  exists before, r. rewrite Hcmd, Hs1. repeat split; [done| |done|done].
  intros ->. simpl in Hspan. rewrite (Hhead c eq_refl) in Hspan.
  by destruct (span_word s1).
Qed.

Lemma tokenize_windows_first_token_witness :
  ∃ before after,
    u "C:\tools\helper.exe --file x"
    = before ++ u "C:\tools\helper.exe" ++ after
    ∧ Forall (λ c, str_isspace c = true) before.
Proof.
  destruct (tokenize_windows_first_token
              (on_windows Posix.bare) (u "C:\tools\helper.exe --file x")
              (u "C:\tools\helper.exe") [u "--file"; u "x"])
    as (_ & before & after & Hcmd & Hbefore & _).
  - reflexivity.
  - vm_compute. reflexivity.
  - by exists before, after.
Defined.

(** ** Construction: [__init__] and [from_config] *)

Lemma init_inv command_spec self :
  __init__ command_spec = Ok self →
  _command self = command_spec
  ∧ command_spec ≠ []
  ∧ (_run_kwargs_shell self = true ↔ ∃ rest, command_spec = bang :: rest).
Proof.
  unfold __init__. destruct command_spec as [|c0 rest]; [done|]. simpl.
  intros [= <-]. simpl. split; [done|]. split; [done|].
  rewrite N.eqb_eq. split; [intros ->; by eexists|by intros [? [= ->]]].
Qed.

(** X13. A helper returned by [from_config] was configured: the section
    looked up is [(b"credential",)] when no URL (or an empty one) is given
    and [(b"credential", url.encode(encoding))] otherwise; its [helper]
    value is set and not empty; the command of the helper is that value
    decoded, it is not empty, and the helper runs through a shell exactly
    when the command begins with [!]. *)
Theorem from_config_returns_configured_helper
    (codec_encode : str → str → result bytes)
    (codec_decode : str → bytes → result str)
    (config : ConfigDict) (url : option str) (self : CredentialHelper) :
  from_config codec_encode codec_decode config url = Ok self →
  ∃ encoding section value,
    config_get config section (b "helper") = Ok value
    ∧ value ≠ []
    ∧ codec_decode encoding value = Ok (_command self)
    ∧ _command self ≠ []
    ∧ (_run_kwargs_shell self = true ↔ ∃ rest, _command self = bang :: rest)
    ∧ match url with
      | Some (c :: text) =>
          ∃ encoded, codec_encode encoding (c :: text) = Ok encoded
                     ∧ section = [b "credential"; encoded]
      | _ => section = [b "credential"]
      end.
Proof.
  unfold from_config.
  set (encoding := match config_encoding config with
                   | Some (c :: name) => c :: name
                   | _ => getdefaultencoding
                   end).
  intros Hself. exists encoding.
  destruct url as [[|c text]|];
    [|destruct (codec_encode encoding (c :: text)) as [encoded|] eqn:Hencode; [|done]|];
    match type of Hself with
    | context [config_get config ?section _] =>
        exists section;
        destruct (config_get config section (b "helper")) as [[|c' value]|]; [done| |done]
    end;
    (destruct (codec_decode encoding (c' :: value)) as [command_text|] eqn:Hdecode; [|done]);
    apply init_inv in Hself as (Hcmd & Hne & Hshell);
    exists (c' :: value); rewrite Hcmd; repeat (split; [done|]); try done.
  by exists encoded.
Qed.

Lemma from_config_returns_configured_helper_witness :
  ∃ encoding section value,
    config_get sample_config section (b "helper") = Ok value
    ∧ ascii_decode encoding value = Ok (u "urlspecific").
Proof.
  destruct (from_config_returns_configured_helper
              ascii_encode ascii_decode sample_config (Some (u "https://git.sr.ht"))
              {| _command := u "urlspecific"; _run_kwargs_shell := false |})
    as (encoding & section & value & Hvalue & _ & Hdecode & _).
  - vm_compute. reflexivity.
  - by exists encoding, section, value.
Defined.

(** ** What command resolution never does *)

(** X14. Whatever the command and the system, resolution makes at most four
    system calls, each of them a search for an executable or the query
    [git --exec-path]; it never launches the helper. *)
Theorem prepare_command_only_probes (os : OS) (self : CredentialHelper) :
  Forall resolution_call (trace (_prepare_command os self))
  ∧ (length (trace (_prepare_command os self)) ≤ 4)%nat.
Proof.
  unfold _prepare_command, lift, ret, shutil_which, subprocess_check_output, bind, trace.
  repeat case_match; simplify_eq/=; (split; [repeat constructor|lia]).
Qed.
